(** * Mentor-Sign-Up: the delimited-text parsers and the form validator

    A shallow embedding of the two [parseCSV] functions of the repository
    (the table-producing one of the [CSVDataTable] component and the
    record-producing one of the [LiveResponsesTable] component) and of the
    form validator used by [BackupMentorForm].

    JavaScript strings are sequences of UTF-16 code units; [text[i]] reads
    one code unit.  A string is modelled as the list of its code units, a
    code unit as a number in [N]. *)

From Stdlib Require Import NArith List Bool Lia String Ascii.
From stdpp Require Import gmap list.
Import ListNotations.

Local Open Scope N_scope.
Local Open Scope nat_scope.
Local Open Scope list_scope.

(** ** JavaScript strings *)

Module JS.

Abbreviation codeunit := N.
Abbreviation jsstring := (list codeunit).

Definition dquote : codeunit := 34%N.   (* the double quote, U+0022 *)
Definition comma  : codeunit := 44%N.   (* the comma, U+002C *)
Definition nl     : codeunit := 10%N.   (* line feed, U+000A *)
Definition cr     : codeunit := 13%N.   (* carriage return, U+000D *)

(** The code units of a Rocq string literal (one unit per character; used
    for ASCII literals only). *)
Definition js (s : string) : jsstring :=
  map N_of_ascii (list_ascii_of_string s).

(** ECMAScript LineTerminator: LF, CR, LS, PS. *)
Definition isLineTerminator (c : codeunit) : bool :=
  (c =? 10)%N || (c =? 13)%N || (c =? 8232)%N || (c =? 8233)%N.

(** ECMAScript WhiteSpace or LineTerminator, the code units that
    [String.prototype.trim] strips: TAB, VT, FF, SP, NBSP, ZWNBSP, the
    other Zs space separators, and the line terminators. *)
Definition isWhiteSpace (c : codeunit) : bool :=
  (c =? 9)%N || (c =? 11)%N || (c =? 12)%N || (c =? 32)%N || (c =? 160)%N
  || (c =? 5760)%N || ((8192 <=? c)%N && (c <=? 8202)%N)
  || (c =? 8239)%N || (c =? 8287)%N || (c =? 12288)%N || (c =? 65279)%N
  || isLineTerminator c.

(** [s.trimStart()] *)
Fixpoint trimStart (s : jsstring) : jsstring :=
  match s with
  | [] => []
  | c :: s' => if isWhiteSpace c then trimStart s' else s
  end.

(** [s.trimEnd()] *)
Fixpoint trimEnd (s : jsstring) : jsstring :=
  match s with
  | [] => []
  | c :: s' =>
      match trimEnd s' with
      | [] => if isWhiteSpace c then [] else [c]
      | r => c :: r
      end
  end.

(** [s.trim()] *)
Definition trim (s : jsstring) : jsstring := trimEnd (trimStart s).

(** Truthiness of a string: the empty string is the only falsy one. *)
Definition truthy (s : jsstring) : bool :=
  match s with [] => false | _ :: _ => true end.

End JS.

Import JS.

(** ** The table parser of the CSVDataTable component *)

Module CSVDataTable.

(** The four local variables of [parseCSV]. *)
Record state := mkState {
  rows : list (list jsstring);
  current : jsstring;
  inQuotes : bool;
  currentRow : list jsstring
}.

Definition init : state :=
  {| rows := []; current := []; inQuotes := false; currentRow := [] |}.

(** [currentRow.some(cell => cell.length > 0)] *)
Definition someNonEmpty (row : list jsstring) : bool :=
  existsb (fun cell => 0 <? length cell) row.

(** [rows.push(currentRow)] guarded by the [some] test. *)
Definition pushRow (rs : list (list jsstring)) (row : list jsstring) :
  list (list jsstring) :=
  if someNonEmpty row then rs ++ [row] else rs.

(** The branch commented [Escaped quote]: a double quote is appended to
    [current]. *)
Definition escapedQuote (st : state) : state :=
  {| rows := rows st; current := current st ++ [dquote];
     inQuotes := inQuotes st; currentRow := currentRow st |}.

(** The branch commented [Toggle quote state]. *)
Definition toggleQuote (st : state) : state :=
  {| rows := rows st; current := current st;
     inQuotes := negb (inQuotes st); currentRow := currentRow st |}.

(** The branch commented [End of field]. *)
Definition endField (st : state) : state :=
  {| rows := rows st; current := [];
     inQuotes := inQuotes st;
     currentRow := currentRow st ++ [trim (current st)] |}.

(** The branch commented [End of row]. *)
Definition endRow (st : state) : state :=
  {| rows := pushRow (rows st) (currentRow st ++ [trim (current st)]);
     current := [];
     inQuotes := inQuotes st;
     currentRow := [] |}.

(** The final branch: [current += char]. *)
Definition appendChar (st : state) (c : codeunit) : state :=
  {| rows := rows st; current := current st ++ [c];
     inQuotes := inQuotes st; currentRow := currentRow st |}.

(** [nextChar === c], where [nextChar] is [undefined] past the end. *)
Definition nextIs (nextChar : option codeunit) (c : codeunit) : bool :=
  match nextChar with Some d => (d =? c)%N | None => false end.

(** One pass through the loop body at [char = text[i]] and
    [nextChar = text[i + 1]].  The boolean tells whether the body ran its
    own [i++], so that the loop header then skips the next code unit. *)
Definition body (st : state) (char : codeunit) (nextChar : option codeunit) :
  state * bool :=
  if (char =? dquote)%N then
    if inQuotes st && nextIs nextChar dquote
    then (escapedQuote st, true)
    else (toggleQuote st, false)
  else if (char =? comma)%N && negb (inQuotes st) then
    (endField st, false)
  else if ((char =? nl)%N || (char =? cr)%N) && negb (inQuotes st) then
    (endRow st, (char =? cr)%N && nextIs nextChar nl)
  else
    (appendChar st char, false).

(** The [for] loop, started on the remaining text. *)
Fixpoint loop (st : state) (text : jsstring) : state :=
  match text with
  | [] => st
  | char :: rest =>
      let '(st', skip) := body st char (head rest) in
      match rest with
      | _ :: rest' => if skip then loop st' rest' else loop st' rest
      | [] => loop st' rest
      end
  end.

(** The code after the loop, commented [Handle last row if it doesn't end
    with newline]. *)
Definition finish (st : state) : list (list jsstring) :=
  if truthy (current st) || (0 <? length (currentRow st))
  then pushRow (rows st) (currentRow st ++ [trim (current st)])
  else rows st.

Definition parseCSV (text : jsstring) : list (list jsstring) :=
  finish (loop init text).

(** One iteration of the loop seen from its head: the state after the body
    and the text left after the loop's [i++] (and after the body's own, if
    it ran). *)
Definition iteration (st : state) (char : codeunit) (rest : jsstring) :
  state * jsstring :=
  let '(st', skip) := body st char (head rest) in
  (st', if skip then tail rest else rest).

(** The configurations (values of the local variables, text from index [i]
    on) that the loop head sees, in order, the exit included. *)
Fixpoint configs (st : state) (text : jsstring) : list (state * jsstring) :=
  (st, text) ::
  match text with
  | [] => []
  | char :: rest =>
      let '(st', skip) := body st char (head rest) in
      match rest with
      | _ :: rest' => if skip then configs st' rest' else configs st' rest
      | [] => configs st' rest
      end
  end.

(** While parsing [text] the loop head is reached in state [st] with [rest]
    left to read. *)
Definition atLoopHead (text : jsstring) (st : state) (rest : jsstring) : Prop :=
  In (st, rest) (configs init text).

(** A pushed row is made of trimmed fields, one of which is not empty. *)
Definition rowKept (row : list jsstring) : Prop :=
  Forall (fun cell => trim cell = cell) row
  /\ exists cell, In cell row /\ cell <> [].

(** A string without carriage return and without newline. *)
Definition noTerminator (s : jsstring) : Prop := ~ In cr s /\ ~ In nl s.

End CSVDataTable.

(** ** The record parser of the LiveResponsesTable component *)

Module LiveResponsesTable.

(** [interface TableRow { [key: string]: string }]: the own string
    properties of a plain object. *)
Abbreviation TableRow := (gmap jsstring jsstring).

(** *** First loop: the text is cut into lines *)

Record lineState := mkLineState {
  lines : list jsstring;
  currentLine : jsstring;
  insideQuote : bool
}.

Definition lineInit : lineState :=
  {| lines := []; currentLine := []; insideQuote := false |}.

(** [if (currentLine.trim()) lines.push(currentLine.trim())] *)
Definition pushLine (ls : list jsstring) (line : jsstring) : list jsstring :=
  if truthy (trim line) then ls ++ [trim line] else ls.

(** The body of the first loop.  A quote toggles the flag and falls through
    to [currentLine += char]; a newline outside quotes pushes the line and
    [continue]s. *)
Definition lineBody (st : lineState) (char : codeunit) : lineState :=
  if (char =? dquote)%N then
    {| lines := lines st; currentLine := currentLine st ++ [char];
       insideQuote := negb (insideQuote st) |}
  else if (char =? nl)%N && negb (insideQuote st) then
    {| lines := pushLine (lines st) (currentLine st); currentLine := [];
       insideQuote := insideQuote st |}
  else
    {| lines := lines st; currentLine := currentLine st ++ [char];
       insideQuote := insideQuote st |}.

Definition lineLoop (st : lineState) (csvText : jsstring) : lineState :=
  fold_left lineBody csvText st.

(** The first loop followed by the code commented [Add the last line if it
    exists]. *)
Definition splitLines (csvText : jsstring) : list jsstring :=
  let st := lineLoop lineInit csvText in
  pushLine (lines st) (currentLine st).

(** *** Second loop: a line is cut into fields *)

(** The call of [replace] that strips the wrapping quotes: its pattern is
    a quote anchored at the start, a greedy captured run of dots, and a
    quote anchored at the end; its replacement is the captured group.  The
    pattern has neither the [s] nor the [m] flag: the anchors match at the
    two ends of the string only and the dot matches every code unit but a
    line terminator.  So the pattern matches exactly the strings that start
    and end with two different quote characters and have no line terminator
    in between, and the result is what lies between the two. *)
Definition stripQuotes (s : jsstring) : jsstring :=
  match s with
  | first :: rest =>
      match rev rest with
      | last :: middle =>
          if (first =? dquote)%N && (last =? dquote)%N
             && forallb (fun c => negb (isLineTerminator c)) middle
          then rev middle
          else s
      | [] => s
      end
  | [] => s
  end.

Record fieldState := mkFieldState {
  fields : list jsstring;
  currentField : jsstring;
  fieldInsideQuote : bool
}.

Definition fieldInit : fieldState :=
  {| fields := []; currentField := []; fieldInsideQuote := false |}.

(** The body of the loop over one line. *)
Definition fieldBody (st : fieldState) (char : codeunit) : fieldState :=
  if (char =? dquote)%N then
    {| fields := fields st; currentField := currentField st ++ [char];
       fieldInsideQuote := negb (fieldInsideQuote st) |}
  else if (char =? comma)%N && negb (fieldInsideQuote st) then
    {| fields := fields st ++ [stripQuotes (trim (currentField st))];
       currentField := [];
       fieldInsideQuote := fieldInsideQuote st |}
  else
    {| fields := fields st; currentField := currentField st ++ [char];
       fieldInsideQuote := fieldInsideQuote st |}.

Definition fieldLoop (st : fieldState) (line : jsstring) : fieldState :=
  fold_left fieldBody line st.

(** The arrow function given to [lines.map]. *)
Definition parseLine (line : jsstring) : list jsstring :=
  let st := fieldLoop fieldInit line in
  fields st ++ [stripQuotes (trim (currentField st))].

(** *** The records *)

Definition proto : jsstring := js "__proto__".

(** [rowObject[key] = value] for a string [value] on an object created by
    an object literal.  Every key but one creates or overwrites an own
    property.  The key [__proto__] reaches the setter inherited from
    [Object.prototype], which ignores a value that is neither an object
    nor [null]: no own property is created. *)
Definition setProperty (rowObject : TableRow) (key value : jsstring) :
  TableRow :=
  if decide (key = proto) then rowObject else <[key := value]> rowObject.

(** [row[index] || '']: an index past the end reads [undefined], which is
    falsy as the empty string is. *)
Definition cellOrEmpty (row : list jsstring) (index : nat) : jsstring :=
  match row !! index with
  | Some cell => if truthy cell then cell else []
  | None => []
  end.

(** [headers.forEach((header, index) => ...)], from [index] on. *)
Fixpoint forEachHeader (headers : list jsstring) (index : nat)
  (row : list jsstring) (rowObject : TableRow) : TableRow :=
  match headers with
  | [] => rowObject
  | header :: headers' =>
      forEachHeader headers' (S index) row
        (setProperty rowObject header (cellOrEmpty row index))
  end.

(** The arrow function given to [dataRows.map]. *)
Definition rowObject (headers row : list jsstring) : TableRow :=
  forEachHeader headers 0 row ∅.

Definition parsedLines (csvText : jsstring) : list (list jsstring) :=
  map parseLine (splitLines csvText).

Definition parseCSV (csvText : jsstring) : list TableRow :=
  let lines := splitLines csvText in
  if length lines =? 0 then [] else
  let parsedLines := map parseLine lines in
  if length parsedLines <? 2 then [] else
  match parsedLines with
  | headers :: dataRows => map (rowObject headers) dataRows
  | [] => []
  end.

End LiveResponsesTable.

(** ** The two parsers side by side *)

(** The reading of a table as records: the first row gives the headers,
    each later row becomes a record keyed positionally by them, a missing
    trailing field becoming the empty string. *)
Definition recordsOfTable (table : list (list jsstring)) :
  list (gmap jsstring jsstring) :=
  match table with
  | [] => []
  | headers :: dataRows => map (LiveResponsesTable.rowObject headers) dataRows
  end.

(** *** Simply quoted texts

    The texts on which the two parsers are compared.  A quote occurs only
    as one of the two quotes that wrap a whole field: only whitespace
    stands between the wrapped field and the separators around it, and
    between the two quotes there is no quote, no line terminator, and
    neither leading nor trailing whitespace.  Outside quotes a carriage
    return occurs only at the end of a line.  A line that is not blank has
    a non-empty field. *)

Module Simple.

(** [consHead c segments] puts [c] in front of the first segment. *)
Definition consHead (c : codeunit) (segments : list jsstring) : list jsstring :=
  match segments with
  | first :: others => (c :: first) :: others
  | [] => [[c]]
  end.

(** [s.split(d)] for a one-unit separator [d]: the segments between the
    occurrences of [d], at least one. *)
Fixpoint splitOn (d : codeunit) (s : jsstring) : list jsstring :=
  match s with
  | [] => [[]]
  | c :: s' =>
      if (c =? d)%N then [] :: splitOn d s' else consHead c (splitOn d s')
  end.

(** [prefixHead s segments] puts [s] in front of the first segment. *)
Definition prefixHead (s : jsstring) (segments : list jsstring) : list jsstring :=
  match segments with
  | first :: others => (s ++ first) :: others
  | [] => [s]
  end.

Definition noQuote (s : jsstring) : bool :=
  forallb (fun c => negb (c =? dquote)%N) s.

Definition noLineTerminator (s : jsstring) : bool :=
  forallb (fun c => negb (isLineTerminator c)) s.

(** The string without its quotes. *)
Definition unquoted (s : jsstring) : jsstring :=
  List.filter (fun c => negb (c =? dquote)%N) s.

(** Where the scan of a line stands within the current field: only
    whitespace read so far; in a field without quotes; between the two
    wrapping quotes ([empty]: nothing read since the opening quote,
    [lastSpace]: the last code unit read was whitespace); after the
    closing quote. *)
Inductive phase := Blank | Bare | Open (empty lastSpace : bool) | Closed.

Definition isOpen (ph : phase) : bool :=
  match ph with Open _ _ => true | _ => false end.

(** The phase after the code unit [c], if [c] is allowed there; [last]
    tells whether [c] ends the line. *)
Definition step (ph : phase) (c : codeunit) (last : bool) : option phase :=
  if (c =? dquote)%N then
    match ph with
    | Blank => Some (Open true false)
    | Open _ false => Some Closed
    | _ => None
    end
  else
    match ph with
    | Open empty _ =>
        if isLineTerminator c then None
        else if isWhiteSpace c
             then (if empty then None else Some (Open false true))
             else Some (Open false false)
    | _ =>
        if (c =? cr)%N then (if last then Some ph else None)
        else if (c =? comma)%N then Some Blank
        else match ph with
             | Blank => Some (if isWhiteSpace c then Blank else Bare)
             | Closed => if isWhiteSpace c then Some Closed else None
             | _ => Some ph
             end
    end.

(** The line, read from phase [ph] on, is simply quoted. *)
Fixpoint accepts (ph : phase) (line : jsstring) : bool :=
  match line with
  | [] => negb (isOpen ph)
  | c :: line' =>
      match step ph c (match line' with [] => true | _ => false end) with
      | Some ph' => accepts ph' line'
      | None => false
      end
  end.

(** The first line is accepted from phase [ph] on, the others from their
    start. *)
Definition acceptsLines (ph : phase) (lines : list jsstring) : bool :=
  match lines with
  | first :: others => accepts ph first && forallb (accepts Blank) others
  | [] => true
  end.



(** The fields of the record parser when its field loop stops in [st]. *)
Definition finishFields (st : LiveResponsesTable.fieldState) : list jsstring :=
  LiveResponsesTable.fields st
  ++ [LiveResponsesTable.stripQuotes (trim (LiveResponsesTable.currentField st))].

(** The rows of the lines left to read when the field loop of the record
    parser stands in [st] within the first of them. *)
Definition rowsOfLines (st : LiveResponsesTable.fieldState)
  (lines : list jsstring) : list (list jsstring) :=
  match lines with
  | first :: others =>
      finishFields (LiveResponsesTable.fieldLoop st first)
      :: map LiveResponsesTable.parseLine others
  | [] => []
  end.

(** What the current field of the record parser looks like in each
    phase. *)
Definition shape (ph : phase) (field : jsstring) : Prop :=
  match ph with
  | Blank => forallb isWhiteSpace field = true
  | Bare => noQuote field = true
  | Open empty lastSpace =>
      exists pre body,
        field = pre ++ dquote :: body
        /\ forallb isWhiteSpace pre = true
        /\ noQuote body = true /\ noLineTerminator body = true
        /\ (if empty then body = [] else trimStart body = body /\ body <> [])
        /\ (lastSpace = false -> trimEnd body = body)
  | Closed =>
      exists pre body post,
        field = pre ++ dquote :: body ++ dquote :: post
        /\ forallb isWhiteSpace pre = true
        /\ forallb isWhiteSpace post = true
        /\ noQuote body = true /\ noLineTerminator body = true
        /\ trim body = body
  end.

(** The states of the two parsers within a line, side by side. *)
Definition related (ph : phase) (st : CSVDataTable.state)
  (fs : LiveResponsesTable.fieldState) : Prop :=
  CSVDataTable.currentRow st = LiveResponsesTable.fields fs
  /\ CSVDataTable.inQuotes st = isOpen ph
  /\ LiveResponsesTable.fieldInsideQuote fs = isOpen ph
  /\ CSVDataTable.current st = unquoted (LiveResponsesTable.currentField fs)
  /\ shape ph (LiveResponsesTable.currentField fs).

End Simple.

(** ** The form validator *)

Module FormValidation.

(** The fields of the form, as in the initial state of [BackupMentorForm]. *)
Inductive Field := email | name | major | year | mentorGoals | hobbies.

Definition allFields : list Field :=
  [email; name; major; year; mentorGoals; hobbies].

(** [interface FormData], from the object literal that initialises the
    form's state. *)
Record FormData := mkFormData {
  fd_email : jsstring;
  fd_name : jsstring;
  fd_major : jsstring;
  fd_year : jsstring;
  fd_mentorGoals : jsstring;
  fd_hobbies : jsstring
}.

(** [data[field]] *)
Definition value (data : FormData) (field : Field) : jsstring :=
  match field with
  | email => fd_email data
  | name => fd_name data
  | major => fd_major data
  | year => fd_year data
  | mentorGoals => fd_mentorGoals data
  | hobbies => fd_hobbies data
  end.

(** The property name of a field. *)
Definition key (field : Field) : jsstring :=
  match field with
  | email => js "email"
  | name => js "name"
  | major => js "major"
  | year => js "year"
  | mentorGoals => js "mentorGoals"
  | hobbies => js "hobbies"
  end.

(** Modelled from the spec: the messages of [utils/formValidation], which
    is not among the sources.  There are two kinds, one for a field left
    empty and one for an address off the pattern; their wording is not
    part of the contract. *)
Inductive Message := required (field : Field) | notInstitutional.

(** [interface FormErrors]: the own properties of the object returned by
    the validator, as [handleSubmit] counts them with [Object.keys]. *)
Abbreviation FormErrors := (gmap jsstring Message).

Definition domain : jsstring := js "rit.edu".
Definition at_sign : codeunit := 64%N.

(** Modelled from the spec: the institutional address pattern of
    [utils/formValidation], which is not among the sources.  An address
    matches when it is a local part, an at sign and the institutional
    domain; the local part is not empty and has no at sign. *)
Definition matchesInstitutional (address : jsstring) : bool :=
  let suffix := at_sign :: domain in
  let n := length address - length suffix in
  (0 <? n)
  && forallb (fun c => negb (c =? at_sign)%N) (firstn n address)
  && bool_decide (skipn n address = suffix).

(** Modelled from the spec: the rule for one field of [validateForm] in
    [utils/formValidation], which is not among the sources.  Every field
    must be non-empty after trimming, and the email field must match the
    institutional pattern. *)
Definition check (data : FormData) (field : Field) : option Message :=
  if negb (truthy (trim (value data field))) then Some (required field)
  else match field with
       | email =>
           if matchesInstitutional (fd_email data) then None
           else Some notInstitutional
       | _ => None
       end.

(** Modelled from the spec: [validateForm] of [utils/formValidation], which
    is not among the sources.  The result has exactly the entries of the
    invalid fields: the fields are checked in turn and the message of a
    field that fails its rule is stored under the field's name. *)
Definition addError (data : FormData) (errors : FormErrors) (field : Field) :
  FormErrors :=
  match check data field with
  | Some message => <[key field := message]> errors
  | None => errors
  end.

Definition validateForm (data : FormData) : FormErrors :=
  fold_left (addError data) allFields ∅.

(** Modelled from the spec: a field is invalid when its value is empty
    after trimming, or when it is the email field and its value does not
    match the pattern. *)
Definition invalid (data : FormData) (field : Field) : Prop :=
  trim (value data field) = []
  \/ (field = email /\ matchesInstitutional (fd_email data) = false).

End FormValidation.

(** ** Lexical conditions on texts and helpers for the table parser *)

Module Lexical.

(** Two quotes stand side by side somewhere in the text. *)
Fixpoint adjacentQuotes (text : jsstring) : bool :=
  match text with
  | [] => false
  | c :: rest =>
      ((c =? dquote)%N && CSVDataTable.nextIs (head rest) dquote)
      || adjacentQuotes rest
  end.

(** The number of quotes of the text is odd. *)
Fixpoint oddQuotes (text : jsstring) : bool :=
  match text with
  | [] => false
  | c :: rest => xorb (c =? dquote)%N (oddQuotes rest)
  end.

(** A carriage return occurs as the last code unit only. *)
Fixpoint crLast (line : jsstring) : bool :=
  match line with
  | [] => true
  | c :: rest =>
      (if (c =? cr)%N then match rest with [] => true | _ => false end
       else true)
      && crLast rest
  end.

(** A line without quotes whose only carriage return, if any, ends it. *)
Definition plainLine (line : jsstring) : bool :=
  Simple.noQuote line && crLast line.

(** The fields of a line without quotes: cut at the commas, trimmed. *)
Definition plainFields (line : jsstring) : list jsstring :=
  map trim (Simple.splitOn comma line).

(** The state [st] with the rows [rs] pushed before its own. *)
Definition addRows (rs : list (list jsstring)) (st : CSVDataTable.state) :
  CSVDataTable.state :=
  {| CSVDataTable.rows := rs ++ CSVDataTable.rows st;
     CSVDataTable.current := CSVDataTable.current st;
     CSVDataTable.inQuotes := CSVDataTable.inQuotes st;
     CSVDataTable.currentRow := CSVDataTable.currentRow st |}.

End Lexical.

(** ** The CSVDataTable component around its parser

    [fetchCSVData] and the choice of what the component renders.  The
    network is not modelled: what each thunk of [fetchAttempts] would
    yield when called is an argument. *)

Module CSVDataTableComponent.

(** [s.startsWith(prefix)] *)
Fixpoint startsWith (prefix s : jsstring) : bool :=
  match prefix, s with
  | [], _ => true
  | _ :: _, [] => false
  | p :: prefix', c :: s' => (c =? p)%N && startsWith prefix' s'
  end.

(** [s.includes(searchString)] *)
Fixpoint includes (searchString s : jsstring) : bool :=
  startsWith searchString s
  || match s with
     | [] => false
     | _ :: s' => includes searchString s'
     end.

Definition digit (d : N) : codeunit := (48 + d)%N.

Fixpoint digits (d : Decimal.uint) : jsstring :=
  match d with
  | Decimal.Nil => []
  | Decimal.D0 d' => digit 0 :: digits d'
  | Decimal.D1 d' => digit 1 :: digits d'
  | Decimal.D2 d' => digit 2 :: digits d'
  | Decimal.D3 d' => digit 3 :: digits d'
  | Decimal.D4 d' => digit 4 :: digits d'
  | Decimal.D5 d' => digit 5 :: digits d'
  | Decimal.D6 d' => digit 6 :: digits d'
  | Decimal.D7 d' => digit 7 :: digits d'
  | Decimal.D8 d' => digit 8 :: digits d'
  | Decimal.D9 d' => digit 9 :: digits d'
  end.

(** A status code as a template literal prints it: in decimal. *)
Definition decimal (n : N) : jsstring := digits (N.to_uint n).

(** What a [catch] clause receives. *)
Inductive Thrown := ErrorObject (message : jsstring) | NotAnError.

(** The text of a response as the attempt obtains it, from [text()] or
    from the [contents] of [json()]: the call throws (so does the later
    [text.trim()] on a truthy value that is not a string), or gives a
    string, or gives a falsy value that is not a string. *)
Inductive Body :=
| BodyThrows (e : Thrown)
| BodyString (text : jsstring)
| BodyFalsy.

(** What calling one thunk of [fetchAttempts] yields. *)
Inductive Attempt :=
| FetchThrows (e : Thrown)
| Response (ok : bool) (status : N) (statusText : jsstring) (body : Body).

(** [err instanceof Error ? err : new Error('Unknown error')], then
    [.message]. *)
Definition messageOf (e : Thrown) : jsstring :=
  match e with
  | ErrorObject message => message
  | NotAnError => js "Unknown error"
  end.

Definition httpMessage (status : N) (statusText : jsstring) : jsstring :=
  js "HTTP " ++ decimal status ++ js ": " ++ statusText.

(** The [try] block of one attempt: the message of the error it throws, or
    the table it hands to [setData]. *)
Definition runAttempt (a : Attempt) : jsstring + list (list jsstring) :=
  match a with
  | FetchThrows e => inl (messageOf e)
  | Response ok status statusText body =>
      if negb ok then inl (httpMessage status statusText)
      else
        match body with
        | BodyThrows e => inl (messageOf e)
        | BodyFalsy => inl (js "Empty response received")
        | BodyString text =>
            if negb (truthy text) || (length (trim text) =? 0)
            then inl (js "Empty response received")
            else if includes (js "<html") text || includes (js "<!DOCTYPE") text
            then inl (js "Received HTML instead of CSV data")
            else
              let parsedData := CSVDataTable.parseCSV text in
              if length parsedData =? 0
              then inl (js "No data found in CSV")
              else inr parsedData
        end
  end.

(** How the [for] loop over the attempts ends: it returns after [setData],
    or throws the last error at the last index, or runs out of attempts
    (with an empty array only). *)
Inductive LoopEnd :=
| Loaded (parsedData : list (list jsstring))
| Threw (message : jsstring)
| RanOut.

(** The [for] loop from index [i] on, [attempts] being what the thunks
    from [i] on yield.  The flag [is404Error] is written in the loop and
    read nowhere. *)
Fixpoint forLoop (attempts : list Attempt) : LoopEnd :=
  match attempts with
  | [] => RanOut
  | a :: rest =>
      match runAttempt a with
      | inr parsedData => Loaded parsedData
      | inl message =>
          match rest with
          | [] => Threw message
          | _ :: _ => forLoop rest
          end
      end
  end.

(** The state of the component. *)
Record State := mkState {
  data : list (list jsstring);
  loading : bool;
  error : option jsstring;
  retryCount : nat;
  showFallback : bool
}.

(** A pending [setTimeout(() => setShowFallback(true), ms)]. *)
Inductive Timer := ShowFallbackAfter (ms : N).

Definition notAccessible : jsstring :=
  js "Google Sheets data not accessible. Showing sample data below.".

Definition unableToLoad : jsstring :=
  js "Unable to load live data. This may be due to Google Sheets permissions or network restrictions.".

(** [fetchCSVData], run to its end from the state [st] with no other event
    in between: the state it leaves and the timer it starts.  It clears
    the error when it starts and ends the loading in its [finally]
    clause; only a load that succeeds touches the data. *)
Definition fetchCSVData (st : State) (attempts : list Attempt) :
  State * list Timer :=
  match forLoop attempts with
  | Loaded parsedData =>
      ({| data := parsedData; loading := false; error := None;
          retryCount := retryCount st; showFallback := showFallback st |}, [])
  | Threw errorMessage =>
      if includes (js "404") errorMessage
      then ({| data := data st; loading := false; error := Some notAccessible;
               retryCount := retryCount st; showFallback := true |}, [])
      else ({| data := data st; loading := false; error := Some unableToLoad;
               retryCount := retryCount st; showFallback := showFallback st |},
            [ShowFallbackAfter 2000])
  | RanOut =>
      ({| data := data st; loading := false; error := None;
          retryCount := retryCount st; showFallback := showFallback st |}, [])
  end.

(** What the component renders. *)
Inductive View :=
| LoadingView
| ErrorView
| EmptyView
| TableView (sampleNotice : bool) (headers : list jsstring)
    (body : list (list jsstring)).

(** [headers.map((_, cellIndex) => row[cellIndex] || '')] *)
Definition cells (headers row : list jsstring) : list jsstring :=
  imap (fun cellIndex _ => LiveResponsesTable.cellOrEmpty row cellIndex) headers.

(** The [return] that the render reaches; [fallbackData] is the table of
    sample rows, whose timestamps depend on the clock. *)
Definition render (fallbackData : list (list jsstring)) (st : State) : View :=
  if loading st then LoadingView
  else if match error st with Some e => truthy e | None => false end
          && negb (showFallback st)
  then ErrorView
  else
    let displayData :=
      if showFallback st && (length (data st) =? 0) then fallbackData
      else data st in
    match displayData with
    | [] => EmptyView
    | headers :: rows => TableView (showFallback st) headers (map (cells headers) rows)
    end.

End CSVDataTableComponent.

(** * Properties *)

(** ** Trimming *)

Section Trim.

Lemma comma_not_space : isWhiteSpace comma = false.
Proof. reflexivity. Qed.

Lemma dquote_not_space : isWhiteSpace dquote = false.
Proof. reflexivity. Qed.

Lemma lineTerminator_space c : isLineTerminator c = true -> isWhiteSpace c = true.
Proof. unfold isWhiteSpace. intros ->. repeat rewrite orb_true_r. reflexivity. Qed.

Lemma trimEnd_cons_nonspace c s :
  isWhiteSpace c = false -> trimEnd (c :: s) = c :: trimEnd s.
Proof. intros H. simpl. rewrite H. destruct (trimEnd s); reflexivity. Qed.

Lemma trimEnd_snoc_space s w :
  isWhiteSpace w = true -> trimEnd (s ++ [w]) = trimEnd s.
Proof.
  intros Hw. induction s as [|c s IH]; simpl.
  - rewrite Hw. reflexivity.
  - rewrite IH. reflexivity.
Qed.

Lemma trimEnd_idem s : trimEnd (trimEnd s) = trimEnd s.
Proof.
  induction s as [|c s IH]; simpl; [reflexivity|].
  destruct (trimEnd s) as [|d r] eqn:E.
  - destruct (isWhiteSpace c) eqn:Hc; simpl; [reflexivity|]. rewrite Hc. reflexivity.
  - simpl in *. rewrite IH. reflexivity.
Qed.

Lemma trimStart_head s :
  match trimStart s with [] => True | c :: _ => isWhiteSpace c = false end.
Proof.
  induction s as [|c s IH]; simpl; [exact I|].
  destruct (isWhiteSpace c) eqn:Hc; [exact IH | exact Hc].
Qed.

Lemma trimStart_fixed s :
  match s with [] => True | c :: _ => isWhiteSpace c = false end ->
  trimStart s = s.
Proof. destruct s as [|c s]; simpl; [reflexivity|]. intros ->. reflexivity. Qed.

Lemma trimEnd_head s :
  match s with [] => True | c :: _ => isWhiteSpace c = false end ->
  match trimEnd s with [] => True | c :: _ => isWhiteSpace c = false end.
Proof.
  destruct s as [|c s]; [intros _; exact I|]. intros Hc.
  rewrite trimEnd_cons_nonspace by exact Hc. exact Hc.
Qed.

(** Trimming twice is trimming once. *)
Lemma trim_idem s : trim (trim s) = trim s.
Proof.
  unfold trim.
  rewrite (trimStart_fixed (trimEnd (trimStart s))).
  - apply trimEnd_idem.
  - apply trimEnd_head, trimStart_head.
Qed.

Lemma trim_cons_space w s : isWhiteSpace w = true -> trim (w :: s) = trim s.
Proof. intros Hw. unfold trim. simpl. rewrite Hw. reflexivity. Qed.

Lemma trimStart_all_space s :
  forallb isWhiteSpace s = true -> trimStart s = [].
Proof.
  induction s as [|c s IH]; simpl; [reflexivity|].
  intros H. apply andb_prop in H as [-> H]. auto.
Qed.

Lemma trimStart_snoc s w :
  forallb isWhiteSpace s = false -> trimStart (s ++ [w]) = trimStart s ++ [w].
Proof.
  induction s as [|c s IH]; simpl; [discriminate|].
  destruct (isWhiteSpace c); simpl; [exact IH | reflexivity].
Qed.

Lemma trim_snoc_space s w : isWhiteSpace w = true -> trim (s ++ [w]) = trim s.
Proof.
  intros Hw. unfold trim.
  destruct (forallb isWhiteSpace s) eqn:E.
  - rewrite (trimStart_all_space s E).
    rewrite trimStart_all_space; [reflexivity|].
    rewrite forallb_app, E. simpl. rewrite Hw. reflexivity.
  - rewrite trimStart_snoc by exact E. apply trimEnd_snoc_space, Hw.
Qed.

Lemma trim_nil : trim [] = [].
Proof. reflexivity. Qed.

Lemma trimEnd_incl s c : In c (trimEnd s) -> In c s.
Proof.
  revert c. induction s as [|d s IH]; simpl; [tauto|]. intros c.
  destruct (trimEnd s) as [|e r].
  - destruct (isWhiteSpace d); simpl; tauto.
  - intros [->|H]; [left; reflexivity | right; apply IH, H].
Qed.

Lemma trimStart_incl s c : In c (trimStart s) -> In c s.
Proof.
  induction s as [|d s IH]; simpl; [tauto|].
  destruct (isWhiteSpace d); simpl; tauto.
Qed.

(** Trimming only removes code units. *)
Lemma trim_incl s c : In c (trim s) -> In c s.
Proof. intros H. apply trimStart_incl, trimEnd_incl, H. Qed.

Lemma truthy_length (s : jsstring) : truthy s = (0 <? length s).
Proof. destruct s; reflexivity. Qed.


Lemma truthy_true s : truthy s = true <-> s <> [].
Proof. destruct s; simpl; split; congruence. Qed.

End Trim.

(** ** The loop of the table parser *)

Section TableLoop.

Import CSVDataTable.

Lemma loop_cons st char rest :
  loop st (char :: rest) =
  loop (fst (iteration st char rest)) (snd (iteration st char rest)).
Proof.
  unfold iteration. simpl.
  destruct (body st char (head rest)) as [st' skip].
  destruct rest as [|d rest']; destruct skip; reflexivity.
Qed.

Lemma configs_cons st char rest :
  configs st (char :: rest) =
  (st, char :: rest) ::
  configs (fst (iteration st char rest)) (snd (iteration st char rest)).
Proof.
  unfold iteration. simpl.
  destruct (body st char (head rest)) as [st' skip].
  destruct rest as [|d rest']; destruct skip; reflexivity.
Qed.

Lemma iteration_shorter st char rest :
  length (snd (iteration st char rest)) <= length rest.
Proof.
  unfold iteration. destruct (body st char (head rest)) as [st' [|]]; simpl;
    [destruct rest; simpl; lia | lia].
Qed.

(** Induction along the iterations of the loop. *)
Lemma loop_induction (P : state -> jsstring -> Prop) :
  (forall st, P st []) ->
  (forall st char rest,
      P (fst (iteration st char rest)) (snd (iteration st char rest)) ->
      P st (char :: rest)) ->
  forall text st, P st text.
Proof.
  intros Hnil Hcons text.
  assert (H : forall n text, length text <= n -> forall st, P st text).
  { induction n as [|n IH]; intros [|c t] Hlen st; simpl in Hlen;
      try apply Hnil; try lia.
    apply Hcons, IH. pose proof (iteration_shorter st c t). lia. }
  apply (H (length text)). lia.
Qed.

Lemma configs_head st text : In (st, text) (configs st text).
Proof. destruct text; simpl; left; reflexivity. Qed.

(** The configurations seen from a configuration of a run are
    configurations of the run. *)
Lemma configs_trans text : forall st0 st rest x,
  In (st, rest) (configs st0 text) -> In x (configs st rest) ->
  In x (configs st0 text).
Proof.
  intros st0. revert text st0.
  refine (loop_induction _ _ _).
  - intros st0 st rest x [E|[]]. inversion E; subst. tauto.
  - intros st0 c t IH st rest x. rewrite configs_cons.
    intros [E|H] Hx.
    + inversion E; subst. rewrite configs_cons in Hx. exact Hx.
    + right. eapply IH; eassumption.
Qed.

(** The loop resumed from a configuration of a run ends as the run does. *)
Lemma loop_from_config text : forall st0 st rest,
  In (st, rest) (configs st0 text) -> loop st0 text = loop st rest.
Proof.
  intros st0. revert text st0.
  refine (loop_induction _ _ _).
  - intros st0 st rest [E|[]]. inversion E; subst. reflexivity.
  - intros st0 c t IH st rest. rewrite configs_cons.
    intros [E|H].
    + inversion E; subst. reflexivity.
    + rewrite loop_cons. apply IH, H.
Qed.

Lemma atLoopHead_start text : atLoopHead text init text.
Proof. apply configs_head. Qed.

Lemma atLoopHead_next text st char rest :
  atLoopHead text st (char :: rest) ->
  atLoopHead text (fst (iteration st char rest)) (snd (iteration st char rest)).
Proof.
  intros H. eapply configs_trans; [exact H|].
  rewrite configs_cons. right. apply configs_head.
Qed.

Lemma atLoopHead_parse text st rest :
  atLoopHead text st rest -> parseCSV text = finish (loop st rest).
Proof. intros H. unfold parseCSV. f_equal. eapply loop_from_config, H. Qed.

End TableLoop.

(** ** Quotes, separators and terminators in the table parser *)

Section TableSteps.

Import CSVDataTable.

(** C1, as amended: the claim holds for the table parser.  Whenever its
    loop head is reached inside a quoted field at a quote that is
    immediately followed by a second quote, the next loop head is reached
    past both quotes with exactly one quote appended to the current field
    and everything else unchanged, the inside-quoted-field flag included.
    In particular the text made of [a], a comma, and the quoted field [b],
    two quotes, [c], followed by a newline, parses to the single row made
    of [a] and of [b], one quote, [c].  The pass of the loop itself says
    the same: it appends one quote, leaves the flag set and goes on behind
    the second quote. *)
Theorem escaped_quote_emits_one_quote :
  (forall text st rest,
      atLoopHead text st (dquote :: dquote :: rest) ->
      inQuotes st = true ->
      atLoopHead text
        {| rows := rows st; current := current st ++ [dquote];
           inQuotes := true; currentRow := currentRow st |}
        rest)
  /\ parseCSV (js "a," ++ [dquote] ++ js "b" ++ [dquote; dquote] ++ js "c"
               ++ [dquote; nl])
     = [[js "a"; js "b" ++ [dquote] ++ js "c"]]
  /\ (forall st rest,
      inQuotes st = true ->
      iteration st dquote (dquote :: rest)
      = ({| rows := rows st; current := current st ++ [dquote];
            inQuotes := true; currentRow := currentRow st |}, rest)).
Proof.
  split; [|split; [vm_compute; reflexivity|]].
  - intros text st rest H Hq.
    apply atLoopHead_next in H.
    unfold iteration, body in H. simpl in H. rewrite Hq in H. simpl in H.
    unfold escapedQuote in H. rewrite Hq in H. exact H.
  - intros st rest Hq. unfold iteration, body, escapedQuote. simpl.
    rewrite Hq. reflexivity.
Qed.

Lemma escaped_quote_emits_one_quote_witness :
  atLoopHead
    (js "a," ++ [dquote] ++ js "b" ++ [dquote; dquote] ++ js "c" ++ [dquote; nl])
    {| rows := []; current := js "b" ++ [dquote]; inQuotes := true;
       currentRow := [js "a"] |}
    (js "c" ++ [dquote; nl]).
Proof.
  apply (proj1 escaped_quote_emits_one_quote
           (js "a," ++ [dquote] ++ js "b" ++ [dquote; dquote] ++ js "c"
            ++ [dquote; nl])
           {| rows := []; current := js "b"; inQuotes := true;
              currentRow := [js "a"] |}
           (js "c" ++ [dquote; nl])).
  - vm_compute. do 4 right. left. reflexivity.
  - reflexivity.
Defined.

(** C1, as stated, fails for the record parser.  Its field loop has no
    branch for a doubled quote: on the line of the claim's example it
    stands inside the quoted field after [b], and there the quote that is
    followed by a second quote clears the flag and is kept in the field,
    and the second quote sets the flag again and is kept too.  The second
    field of the line comes out as [b], two quotes, [c], not as [b], one
    quote, [c]. *)
Lemma record_parser_keeps_doubled_quotes :
  LiveResponsesTable.fieldLoop LiveResponsesTable.fieldInit
    (js "a," ++ [dquote] ++ js "b")
  = {| LiveResponsesTable.fields := [js "a"];
       LiveResponsesTable.currentField := [dquote] ++ js "b";
       LiveResponsesTable.fieldInsideQuote := true |}
  /\ LiveResponsesTable.fieldBody
       {| LiveResponsesTable.fields := [js "a"];
          LiveResponsesTable.currentField := [dquote] ++ js "b";
          LiveResponsesTable.fieldInsideQuote := true |} dquote
     = {| LiveResponsesTable.fields := [js "a"];
          LiveResponsesTable.currentField := [dquote] ++ js "b" ++ [dquote];
          LiveResponsesTable.fieldInsideQuote := false |}
  /\ LiveResponsesTable.fieldLoop
       {| LiveResponsesTable.fields := [js "a"];
          LiveResponsesTable.currentField := [dquote] ++ js "b";
          LiveResponsesTable.fieldInsideQuote := true |} [dquote; dquote]
     = {| LiveResponsesTable.fields := [js "a"];
          LiveResponsesTable.currentField :=
            [dquote] ++ js "b" ++ [dquote; dquote];
          LiveResponsesTable.fieldInsideQuote := true |}
  /\ LiveResponsesTable.parsedLines
       (js "a," ++ [dquote] ++ js "b" ++ [dquote; dquote] ++ js "c"
        ++ [dquote; nl])
     = [[js "a"; js "b" ++ [dquote; dquote] ++ js "c"]]
  /\ LiveResponsesTable.parsedLines
       (js "a," ++ [dquote] ++ js "b" ++ [dquote; dquote] ++ js "c"
        ++ [dquote; nl])
     <> [[js "a"; js "b" ++ [dquote] ++ js "c"]].
Proof.
  split; [vm_compute; reflexivity|].
  split; [vm_compute; reflexivity|].
  split; [vm_compute; reflexivity|].
  split; [vm_compute; reflexivity|].
  vm_compute. discriminate.
Qed.

(** C3.  Whenever the loop head of the table parser is reached at a comma
    inside a quoted field, the comma is appended to the current field and
    no field ends; outside a quoted field the comma ends the current field,
    whose trimmed text is appended to the current row.  The field loop of
    the record parser treats a comma the same way.  In particular the text
    made of [a], a comma and the quoted field [b,c], followed by a newline,
    parses to the single row made of [a] and [b,c]. *)
Theorem comma_separates_outside_quotes :
  (forall text st rest,
      atLoopHead text st (comma :: rest) -> inQuotes st = true ->
      atLoopHead text
        {| rows := rows st; current := current st ++ [comma];
           inQuotes := true; currentRow := currentRow st |}
        rest)
  /\ (forall text st rest,
      atLoopHead text st (comma :: rest) -> inQuotes st = false ->
      atLoopHead text
        {| rows := rows st; current := [];
           inQuotes := false;
           currentRow := currentRow st ++ [trim (current st)] |}
        rest)
  /\ (forall st line,
      LiveResponsesTable.fieldInsideQuote st = true ->
      LiveResponsesTable.fieldLoop st (comma :: line) =
      LiveResponsesTable.fieldLoop
        {| LiveResponsesTable.fields := LiveResponsesTable.fields st;
           LiveResponsesTable.currentField :=
             LiveResponsesTable.currentField st ++ [comma];
           LiveResponsesTable.fieldInsideQuote := true |} line)
  /\ (forall st line,
      LiveResponsesTable.fieldInsideQuote st = false ->
      LiveResponsesTable.fieldLoop st (comma :: line) =
      LiveResponsesTable.fieldLoop
        {| LiveResponsesTable.fields :=
             LiveResponsesTable.fields st
             ++ [LiveResponsesTable.stripQuotes
                   (trim (LiveResponsesTable.currentField st))];
           LiveResponsesTable.currentField := [];
           LiveResponsesTable.fieldInsideQuote := false |} line)
  /\ parseCSV (js "a," ++ [dquote] ++ js "b,c" ++ [dquote; nl])
     = [[js "a"; js "b,c"]]
  /\ LiveResponsesTable.parseLine (js "a," ++ [dquote] ++ js "b,c" ++ [dquote])
     = [js "a"; js "b,c"].
Proof.
  split; [|split; [|split; [|split; [|split; vm_compute; reflexivity]]]].
  - intros text st rest H Hq. apply atLoopHead_next in H.
    unfold iteration, body in H. simpl in H. rewrite Hq in H. simpl in H.
    unfold appendChar in H. rewrite Hq in H. exact H.
  - intros text st rest H Hq. apply atLoopHead_next in H.
    unfold iteration, body in H. simpl in H. rewrite Hq in H. simpl in H.
    unfold endField in H. rewrite Hq in H. exact H.
  - intros st line Hq. unfold LiveResponsesTable.fieldLoop. simpl.
    unfold LiveResponsesTable.fieldBody. simpl. rewrite Hq. reflexivity.
  - intros st line Hq. unfold LiveResponsesTable.fieldLoop. simpl.
    unfold LiveResponsesTable.fieldBody. simpl. rewrite Hq. reflexivity.
Qed.

Lemma comma_separates_outside_quotes_witness :
  atLoopHead (js "a," ++ [dquote] ++ js "b,c" ++ [dquote; nl])
    {| rows := []; current := js "b,"; inQuotes := true;
       currentRow := [js "a"] |}
    (js "c" ++ [dquote; nl]).
Proof.
  apply (proj1 comma_separates_outside_quotes
           (js "a," ++ [dquote] ++ js "b,c" ++ [dquote; nl])
           {| rows := []; current := js "b"; inQuotes := true;
              currentRow := [js "a"] |}
           (js "c" ++ [dquote; nl])).
  - vm_compute. do 4 right. left. reflexivity.
  - reflexivity.
Defined.

(** C9.  The seven code units [a,b], newline, [c,d] parse to a table of
    exactly two rows, [a; b] and then [c; d]. *)
Theorem two_plain_rows :
  length (js "a,b" ++ [nl] ++ js "c,d") = 7
  /\ parseCSV (js "a,b" ++ [nl] ++ js "c,d")
     = [[js "a"; js "b"]; [js "c"; js "d"]]
  /\ length (parseCSV (js "a,b" ++ [nl] ++ js "c,d")) = 2.
Proof. repeat split; vm_compute; reflexivity. Qed.

End TableSteps.

(** ** Invariants of the table parser *)

Section TableInvariants.

Import CSVDataTable.

(** A property of the state that every branch of the body preserves, for
    the code units of the text, holds when the loop exits. *)
Lemma loop_invariant (P : state -> Prop) (Q : codeunit -> Prop) :
  (forall st c n, Q c -> P st -> P (fst (body st c n))) ->
  forall text st, Forall Q text -> P st -> P (loop st text).
Proof.
  intros Hbody.
  refine (loop_induction _ _ _).
  - intros st _ H. exact H.
  - intros st c rest IH HQ HP. rewrite loop_cons.
    inversion HQ as [|? ? Hc Hrest]; subst.
    unfold iteration in *.
    specialize (Hbody st c (head rest) Hc HP).
    destruct (body st c (head rest)) as [st' skip]. simpl in *.
    apply IH; [|exact Hbody].
    destruct skip; [|exact Hrest].
    destruct rest; simpl; [constructor|]. inversion Hrest; assumption.
Qed.

Lemma someNonEmpty_exists row :
  someNonEmpty row = true -> exists cell, In cell row /\ cell <> [].
Proof.
  unfold someNonEmpty. intros H. apply existsb_exists in H as [cell [Hin Hlen]].
  exists cell. split; [exact Hin|]. destruct cell; [discriminate | congruence].
Qed.

Lemma someNonEmpty_false row :
  someNonEmpty row = false -> Forall (fun cell => cell = []) row.
Proof.
  unfold someNonEmpty. induction row as [|cell row IH]; simpl; [constructor|].
  intros H. apply orb_false_elim in H as [Hc Hr].
  constructor; [destruct cell; [reflexivity | discriminate] | apply IH, Hr].
Qed.

Lemma pushRow_kept rs row :
  Forall rowKept rs -> Forall (fun cell => trim cell = cell) row ->
  Forall rowKept (pushRow rs row).
Proof.
  intros Hrs Hrow. unfold pushRow.
  destruct (someNonEmpty row) eqn:E; [|exact Hrs].
  apply Forall_app. split; [exact Hrs|].
  constructor; [|constructor]. split; [exact Hrow|].
  apply someNonEmpty_exists, E.
Qed.

Lemma snoc_trimmed row s :
  Forall (fun cell => trim cell = cell) row ->
  Forall (fun cell => trim cell = cell) (row ++ [trim s]).
Proof.
  intros H. apply Forall_app. split; [exact H|].
  constructor; [apply trim_idem | constructor].
Qed.

Lemma body_keeps_rows st c n :
  Forall rowKept (rows st)
  /\ Forall (fun cell => trim cell = cell) (currentRow st) ->
  Forall rowKept (rows (fst (body st c n)))
  /\ Forall (fun cell => trim cell = cell) (currentRow (fst (body st c n))).
Proof.
  intros [Hr Hc]. unfold body.
  destruct (c =? dquote)%N.
  { destruct (inQuotes st && nextIs n dquote); simpl; split; assumption. }
  destruct ((c =? comma)%N && negb (inQuotes st)).
  { simpl. split; [exact Hr | apply snoc_trimmed, Hc]. }
  destruct (((c =? nl)%N || (c =? cr)%N) && negb (inQuotes st)).
  { simpl. split; [|constructor]. apply pushRow_kept; [exact Hr|].
    apply snoc_trimmed, Hc. }
  simpl. split; assumption.
Qed.

Lemma parseCSV_rows_kept text : Forall rowKept (parseCSV text).
Proof.
  unfold parseCSV.
  assert (H : Forall rowKept (rows (loop init text))
              /\ Forall (fun cell => trim cell = cell)
                   (currentRow (loop init text))).
  { apply (loop_invariant
             (fun st => Forall rowKept (rows st)
                        /\ Forall (fun cell => trim cell = cell) (currentRow st))
             (fun _ => True)).
    - intros st c n _. apply body_keeps_rows.
    - apply List.Forall_forall. intros; exact I.
    - simpl. split; constructor. }
  destruct H as [Hr Hc]. unfold finish.
  destruct (truthy (current (loop init text))
            || (0 <? length (currentRow (loop init text)))); [|exact Hr].
  apply pushRow_kept; [exact Hr | apply snoc_trimmed, Hc].
Qed.

(** C4.  A row all of whose fields are empty or only whitespace, that is,
    trim to the empty string, is not a row of the table the table parser
    returns, whatever the text; and the empty text parses to the empty
    table. *)
Theorem blank_rows_dropped :
  forall text row,
    Forall (fun cell => trim cell = []) row ->
    ~ In row (parseCSV text) /\ parseCSV [] = [].
Proof.
  intros text row Hblank. split; [|reflexivity].
  intros Hin.
  pose proof (parseCSV_rows_kept text) as H.
  rewrite List.Forall_forall in H. destruct (H row Hin) as [Htrim [cell [Hc Hne]]].
  rewrite List.Forall_forall in Hblank, Htrim.
  apply Hne. rewrite <- (Htrim cell Hc). apply Hblank, Hc.
Qed.

Lemma blank_rows_dropped_witness :
  ~ In [[]; js "  "] (parseCSV (js "a" ++ [nl] ++ js ",  " ++ [nl] ++ js "b"))
  /\ parseCSV [] = [].
Proof.
  apply blank_rows_dropped.
  repeat constructor.
Defined.

(** Inside a quoted field every code unit but a quote is appended to the
    current field. *)
Lemma body_in_quotes st c n :
  inQuotes st = true -> c <> dquote ->
  body st c n = (appendChar st c, false).
Proof.
  intros Hq Hc. unfold body. rewrite Hq.
  apply N.eqb_neq in Hc. rewrite Hc. simpl.
  rewrite !andb_false_r. reflexivity.
Qed.

Lemma loop_in_quotes : forall rest st,
  inQuotes st = true -> ~ In dquote rest ->
  loop st rest =
  {| rows := rows st; current := current st ++ rest; inQuotes := true;
     currentRow := currentRow st |}.
Proof.
  refine (loop_induction _ _ _).
  - intros [r c q cr] Hq _. simpl in *. subst q. rewrite app_nil_r. reflexivity.
  - intros st c rest IH Hq Hno. rewrite loop_cons.
    assert (Hc : c <> dquote) by (intros ->; apply Hno; left; reflexivity).
    unfold iteration in *. rewrite (body_in_quotes st c _ Hq Hc) in *.
    simpl in *. rewrite IH; [|exact Hq|tauto]. simpl.
    rewrite <- app_assoc. reflexivity.
Qed.

(** The test that guards the code after the loop never holds back a row
    that the [some] test would keep. *)
Lemma finish_pushRow st :
  finish st = pushRow (rows st) (currentRow st ++ [trim (current st)]).
Proof.
  unfold finish.
  destruct (current st) as [|c s] eqn:Ec; simpl; [|reflexivity].
  destruct (currentRow st) as [|r rs] eqn:Er; reflexivity.
Qed.

Lemma finish_endRow st : finish (endRow st) = finish st.
Proof. rewrite (finish_pushRow st). reflexivity. Qed.

Lemma finish_append_nl st : finish (appendChar st nl) = finish st.
Proof.
  rewrite !finish_pushRow. simpl. rewrite trim_snoc_space; reflexivity.
Qed.

Lemma finish_body_nl st n : finish (fst (body st nl n)) = finish st.
Proof.
  unfold body. simpl. destruct (inQuotes st); simpl.
  - apply finish_append_nl.
  - apply finish_endRow.
Qed.

(** A newline added at the end of the text does not change the table. *)
Lemma finish_loop_snoc_nl : forall text st,
  finish (loop st (text ++ [nl])) = finish (loop st text).
Proof.
  refine (loop_induction _ _ _).
  - intros st. simpl. apply finish_body_nl.
  - intros st c rest IH. simpl app. rewrite !loop_cons.
    destruct rest as [|d rest'].
    + (* the last code unit of the text *)
      unfold iteration in *. simpl in *.
      unfold body in *.
      destruct (c =? dquote)%N.
      { replace (nextIs (Some nl) dquote) with false by reflexivity.
        replace (nextIs None dquote) with false in IH |- * by reflexivity.
        rewrite andb_false_r in *. simpl in *. exact IH. }
      destruct ((c =? comma)%N && negb (inQuotes st)); [simpl in *; exact IH|].
      destruct (((c =? nl)%N || (c =? cr)%N) && negb (inQuotes st));
        [|simpl in *; exact IH].
      simpl in *. destruct (c =? cr)%N; simpl in *; [reflexivity | exact IH].
    + unfold iteration in *. simpl in *.
      destruct (body st c (Some d)) as [st' [|]]; simpl in *; exact IH.
Qed.

(** C5.  The table parser is a total function (its loop is a structural
    recursion on the text and none of its operations can fail), and its
    result is determined as follows.  When the loop head is reached inside
    a quoted field and no quote is left in the text, the loop exits with
    all the remaining text appended to the current field, and the table is
    the rows pushed so far followed by the current row ended by that field,
    trimmed.  For every text the table is the rows pushed by the loop
    followed by the row and the field that were open at the end of the
    text, kept under the same test as every other row, so that a text and
    the same text followed by a newline give the same table. *)
Theorem unterminated_quote_and_last_row :
  (forall text st rest,
      atLoopHead text st rest -> inQuotes st = true -> ~ In dquote rest ->
      loop st rest =
      {| rows := rows st; current := current st ++ rest; inQuotes := true;
         currentRow := currentRow st |}
      /\ parseCSV text =
         pushRow (rows st) (currentRow st ++ [trim (current st ++ rest)]))
  /\ (forall text,
      parseCSV text =
      pushRow (rows (loop init text))
        (currentRow (loop init text) ++ [trim (current (loop init text))]))
  /\ (forall text, parseCSV (text ++ [nl]) = parseCSV text)
  /\ parseCSV (js "a," ++ [dquote] ++ js "b,c" ++ [nl] ++ js "d")
     = [[js "a"; js "b,c" ++ [nl] ++ js "d"]]
  /\ parseCSV (js "a,b" ++ [nl] ++ js "c,d")
     = parseCSV (js "a,b" ++ [nl] ++ js "c,d" ++ [nl]).
Proof.
  split; [|split; [|split; [|split; vm_compute; reflexivity]]].
  - intros text st rest H Hq Hno.
    pose proof (loop_in_quotes rest st Hq Hno) as Hl.
    split; [exact Hl|].
    rewrite (atLoopHead_parse text st rest H), Hl, finish_pushRow.
    reflexivity.
  - intros text. unfold parseCSV. apply finish_pushRow.
  - intros text. unfold parseCSV. apply finish_loop_snoc_nl.
Qed.

Lemma unterminated_quote_and_last_row_witness :
  parseCSV (js "a," ++ [dquote] ++ js "b,c" ++ [nl] ++ js "d") =
  pushRow [] ([js "a"] ++ [trim ([] ++ js "b,c" ++ [nl] ++ js "d")]).
Proof.
  apply (proj1 unterminated_quote_and_last_row
           (js "a," ++ [dquote] ++ js "b,c" ++ [nl] ++ js "d")
           {| rows := []; current := []; inQuotes := true;
              currentRow := [js "a"] |}
           (js "b,c" ++ [nl] ++ js "d")).
  - vm_compute. do 3 right. left. reflexivity.
  - reflexivity.
  - vm_compute. intuition discriminate.
Defined.

Lemma noTerminator_trim s : noTerminator s -> noTerminator (trim s).
Proof. intros [Hc Hn]. split; intros H; apply trim_incl in H; tauto. Qed.

Lemma noTerminator_snoc s c :
  noTerminator s -> c <> cr -> c <> nl -> noTerminator (s ++ [c]).
Proof.
  intros [Hc Hn] Hcr Hnl.
  split; intros H; apply in_app_or in H as [H|[H|[]]]; auto.
Qed.

Lemma pushRow_noTerminator rs row :
  Forall (Forall noTerminator) rs -> Forall noTerminator row ->
  Forall (Forall noTerminator) (pushRow rs row).
Proof.
  intros Hrs Hrow. unfold pushRow. destruct (someNonEmpty row); [|exact Hrs].
  apply Forall_app. split; [exact Hrs | constructor; [exact Hrow | constructor]].
Qed.

Lemma snoc_noTerminator row s :
  Forall noTerminator row -> noTerminator s ->
  Forall noTerminator (row ++ [trim s]).
Proof.
  intros Hrow Hs. apply Forall_app.
  split; [exact Hrow | constructor; [apply noTerminator_trim, Hs | constructor]].
Qed.

(** Outside quotes no carriage return and no newline enters a field. *)
Lemma body_noTerminator st c n :
  c <> dquote ->
  inQuotes st = false /\ noTerminator (current st)
  /\ Forall noTerminator (currentRow st)
  /\ Forall (Forall noTerminator) (rows st) ->
  inQuotes (fst (body st c n)) = false
  /\ noTerminator (current (fst (body st c n)))
  /\ Forall noTerminator (currentRow (fst (body st c n)))
  /\ Forall (Forall noTerminator) (rows (fst (body st c n))).
Proof.
  intros Hc [Hq [Hcur [Hrow Hrows]]]. unfold body.
  apply N.eqb_neq in Hc. rewrite Hc, Hq. simpl negb. rewrite !andb_true_r.
  assert (Hnil : noTerminator []) by (split; intros []).
  destruct (c =? comma)%N.
  { simpl. repeat split; try assumption; try (intros []).
    apply snoc_noTerminator; assumption. }
  destruct (c =? nl)%N eqn:Enl.
  { simpl. repeat split; try assumption; try (intros []); [constructor|].
    apply pushRow_noTerminator; [|apply snoc_noTerminator]; assumption. }
  destruct (c =? cr)%N eqn:Ecr.
  { simpl. repeat split; try assumption; try (intros []); [constructor|].
    apply pushRow_noTerminator; [|apply snoc_noTerminator]; assumption. }
  simpl. apply N.eqb_neq in Enl, Ecr.
  split; [exact Hq|]. split; [apply noTerminator_snoc; assumption|].
  split; assumption.
Qed.

Lemma parseCSV_noTerminator text :
  ~ In dquote text -> Forall (Forall noTerminator) (parseCSV text).
Proof.
  intros Hq. unfold parseCSV.
  assert (H : inQuotes (loop init text) = false
              /\ noTerminator (current (loop init text))
              /\ Forall noTerminator (currentRow (loop init text))
              /\ Forall (Forall noTerminator) (rows (loop init text))).
  { apply (loop_invariant
             (fun st => inQuotes st = false /\ noTerminator (current st)
                        /\ Forall noTerminator (currentRow st)
                        /\ Forall (Forall noTerminator) (rows st))
             (fun c => c <> dquote)).
    - intros st c n. apply body_noTerminator.
    - apply List.Forall_forall. intros c Hc ->. contradiction.
    - simpl. repeat split; try constructor; intros []. }
  destruct H as [_ [Hcur [Hrow Hrows]]].
  rewrite finish_pushRow.
  apply pushRow_noTerminator; [|apply snoc_noTerminator]; assumption.
Qed.

(** In the record parser a carriage return at the end of a line is
    trimmed away when the line is pushed. *)
Lemma pushLine_snoc_cr ls line :
  LiveResponsesTable.pushLine ls (line ++ [cr])
  = LiveResponsesTable.pushLine ls line.
Proof.
  unfold LiveResponsesTable.pushLine.
  rewrite trim_snoc_space by reflexivity. reflexivity.
Qed.

End TableInvariants.

(** ** The records of the record parser *)

Section Records.

Import LiveResponsesTable.

Lemma setProperty_lookup_ne (obj : gmap jsstring jsstring) key value other :
  other <> key -> setProperty obj key value !! other = obj !! other.
Proof.
  intros Hne. unfold setProperty. destruct (decide (key = proto)); [reflexivity|].
  apply lookup_insert_ne. congruence.
Qed.

Lemma setProperty_lookup_eq (obj : gmap jsstring jsstring) key value :
  key <> proto -> setProperty obj key value !! key = Some value.
Proof.
  intros Hne. unfold setProperty. destruct (decide (key = proto)); [contradiction|].
  apply lookup_insert_eq.
Qed.

Lemma setProperty_proto (obj : gmap jsstring jsstring) value :
  setProperty obj proto value = obj.
Proof. unfold setProperty. destruct (decide (proto = proto)); congruence. Qed.

(** A key that is not a header is left as it was. *)
Lemma forEachHeader_lookup_other (headers : list jsstring) key :
  (forall j, headers !! j <> Some key) ->
  forall index row (obj : gmap jsstring jsstring),
    forEachHeader headers index row obj !! key = obj !! key.
Proof.
  induction headers as [|h hs IH]; intros Hno index row obj; [reflexivity|].
  simpl. rewrite IH.
  - apply setProperty_lookup_ne. intros ->. apply (Hno 0). reflexivity.
  - intros j. apply (Hno (S j)).
Qed.

(** The property named by a header holds the cell at the position of the
    last occurrence of the header. *)
Lemma forEachHeader_lookup_last (headers : list jsstring) :
  forall i header index row (obj : gmap jsstring jsstring),
    headers !! i = Some header ->
    header <> proto ->
    (forall j, i < j -> headers !! j <> Some header) ->
    forEachHeader headers index row obj !! header
    = Some (cellOrEmpty row (index + i)).
Proof.
  induction headers as [|h hs IH]; intros i header index row obj Hi Hp Hlast;
    [discriminate|].
  destruct i as [|i]; simpl in *.
  - injection Hi as ->. rewrite forEachHeader_lookup_other.
    + rewrite Nat.add_0_r. apply setProperty_lookup_eq, Hp.
    + intros j. apply (Hlast (S j)). lia.
  - rewrite (IH i header); [f_equal; f_equal; lia | exact Hi | exact Hp |].
    intros j Hj. apply (Hlast (S j)). lia.
Qed.

Lemma cellOrEmpty_present (row : list jsstring) i cell :
  row !! i = Some cell -> cellOrEmpty row i = cell.
Proof.
  intros H. unfold cellOrEmpty. rewrite H. destruct cell; reflexivity.
Qed.

Lemma cellOrEmpty_missing (row : list jsstring) i :
  length row <= i -> cellOrEmpty row i = [].
Proof.
  intros H. unfold cellOrEmpty. rewrite (lookup_ge_None_2 row i H). reflexivity.
Qed.

(** The record parser returns the records of its parsed lines. *)
Lemma parseCSV_records csvText :
  parseCSV csvText = recordsOfTable (parsedLines csvText).
Proof.
  unfold parseCSV, parsedLines.
  destruct (splitLines csvText) as [|l1 [|l2 ls]]; reflexivity.
Qed.

(** C6, as amended.  Take a text whose parsed lines are a header row and
    data rows, a data row, and a header that is not the name [__proto__]
    and does not occur again later in the header row.  In the record made
    from the data row, the property named by the header is the field of
    the row at the header's position when the row has one, and the empty
    string when the row is too short. *)
Theorem record_field_by_header :
  forall csvText headers dataRows k row i header,
    parsedLines csvText = headers :: dataRows ->
    dataRows !! k = Some row ->
    headers !! i = Some header ->
    header <> proto ->
    (forall j, i < j -> headers !! j <> Some header) ->
    exists record : gmap jsstring jsstring,
      parseCSV csvText !! k = Some record
      /\ (length row <= i -> record !! header = Some [])
      /\ (forall cell, row !! i = Some cell -> record !! header = Some cell).
Proof.
  intros csvText headers dataRows k row i header Hparsed Hk Hi Hp Hlast.
  exists (rowObject headers row).
  rewrite parseCSV_records, Hparsed. simpl.
  split; [rewrite list_lookup_fmap, Hk; reflexivity|].
  unfold rowObject.
  rewrite (forEachHeader_lookup_last headers i header 0 row ∅ Hi Hp Hlast).
  simpl. split.
  - intros Hlen. rewrite cellOrEmpty_missing by exact Hlen. reflexivity.
  - intros cell Hcell. rewrite (cellOrEmpty_present row i cell Hcell). reflexivity.
Qed.

Lemma record_field_by_header_witness :
  exists record : gmap jsstring jsstring,
    parseCSV (js "a,b,c" ++ [nl] ++ js "x,y") !! 0 = Some record
    /\ (length [js "x"; js "y"] <= 2 -> record !! js "c" = Some [])
    /\ (forall cell, [js "x"; js "y"] !! 2 = Some cell ->
        record !! js "c" = Some cell).
Proof.
  apply (record_field_by_header (js "a,b,c" ++ [nl] ++ js "x,y")
           [js "a"; js "b"; js "c"] [[js "x"; js "y"]] 0 [js "x"; js "y"] 2
           (js "c")).
  - vm_compute. reflexivity.
  - reflexivity.
  - reflexivity.
  - vm_compute. discriminate.
  - intros [|[|[|j]]] Hj; try lia. vm_compute. discriminate.
Defined.

(** C6, as stated, fails.  With the header row [a,b,a] and the data row
    [x,y], the field [x] is present at the position of the first header
    [a], yet the record holds the empty string under [a]: the third header
    overwrote it.  With the header row [a,__proto__] and the data row [x],
    the second field is missing, yet the record has no property
    [__proto__] at all. *)
Lemma record_field_by_header_fails :
  (parsedLines (js "a,b,a" ++ [nl] ++ js "x,y")
   = [js "a"; js "b"; js "a"] :: [[js "x"; js "y"]]
   /\ [js "x"; js "y"] !! 0 = Some (js "x")
   /\ [js "a"; js "b"; js "a"] !! 0 = Some (js "a")
   /\ ~ exists record : gmap jsstring jsstring,
         parseCSV (js "a,b,a" ++ [nl] ++ js "x,y") !! 0 = Some record
         /\ record !! js "a" = Some (js "x"))
  /\ (parsedLines (js "a,__proto__" ++ [nl] ++ js "x")
      = [js "a"; js "__proto__"] :: [[js "x"]]
      /\ length [js "x"] <= 1
      /\ [js "a"; js "__proto__"] !! 1 = Some (js "__proto__")
      /\ ~ exists record : gmap jsstring jsstring,
            parseCSV (js "a,__proto__" ++ [nl] ++ js "x") !! 0 = Some record
            /\ record !! js "__proto__" = Some []).
Proof.
  split.
  - split; [vm_compute; reflexivity|].
    split; [reflexivity|]. split; [reflexivity|].
    intros [record [Hr Ha]]. vm_compute in Hr. injection Hr as <-.
    vm_compute in Ha. discriminate.
  - split; [vm_compute; reflexivity|].
    split; [simpl; lia|]. split; [reflexivity|].
    intros [record [Hr Ha]]. vm_compute in Hr. injection Hr as <-.
    vm_compute in Ha. discriminate.
Qed.

End Records.

(** ** The form validator *)

Section Validator.

Import FormValidation.

Lemma key_inj f g : key f = key g -> f = g.
Proof. destruct f, g; intros H; try reflexivity; vm_compute in H; discriminate. Qed.

Lemma Field_eq_dec (f g : Field) : {f = g} + {f <> g}.
Proof. decide equality. Qed.

Lemma allFields_complete f : In f allFields.
Proof. destruct f; simpl; tauto. Qed.

Lemma allFields_NoDup : List.NoDup allFields.
Proof.
  unfold allFields.
  repeat (constructor; [simpl; intuition discriminate|]). constructor.
Qed.

Section Fold.

Variable data : FormData.

Lemma fold_lookup_other fields : forall (errors : gmap jsstring Message) k,
  (forall f, In f fields -> key f <> k) ->
  fold_left (addError data) fields errors !! k = errors !! k.
Proof.
  induction fields as [|g gs IH]; intros errors k Hk; [reflexivity|].
  simpl. rewrite IH by (intros f Hf; apply Hk; right; exact Hf).
  unfold addError. destruct (check data g); [|reflexivity].
  apply lookup_insert_ne. apply Hk. left. reflexivity.
Qed.

Lemma fold_lookup_field fields : forall (errors : gmap jsstring Message) f,
  In f fields -> List.NoDup fields ->
  fold_left (addError data) fields errors !! key f
  = match check data f with
    | Some message => Some message
    | None => errors !! key f
    end.
Proof.
  induction fields as [|g gs IH]; intros errors f Hin Hnd; [destruct Hin|].
  inversion Hnd as [|? ? Hg Hgs]; subst. simpl.
  destruct (Field_eq_dec g f) as [->|Hne].
  - rewrite fold_lookup_other.
    + unfold addError. destruct (check data f); [apply lookup_insert_eq | reflexivity].
    + intros h Hh E. apply key_inj in E. subst h. contradiction.
  - destruct Hin as [E|Hin]; [contradiction|].
    rewrite (IH _ f Hin Hgs).
    destruct (check data f); [reflexivity|].
    unfold addError. destruct (check data g); [|reflexivity].
    apply lookup_insert_ne. intros E. apply key_inj in E. contradiction.
Qed.

End Fold.

(** The entry of a field in the result is the outcome of its rule. *)
Lemma validateForm_lookup data field :
  validateForm data !! key field = check data field.
Proof.
  unfold validateForm.
  rewrite (fold_lookup_field data allFields ∅ field
             (allFields_complete field) allFields_NoDup).
  destruct (check data field); reflexivity.
Qed.

Lemma validateForm_lookup_other data k :
  (forall field, key field <> k) -> validateForm data !! k = None.
Proof.
  intros Hk. unfold validateForm.
  rewrite fold_lookup_other; [reflexivity|]. intros f _. apply Hk.
Qed.

Lemma check_invalid data field :
  is_Some (check data field) <-> invalid data field.
Proof.
  unfold check, invalid.
  destruct (trim (value data field)) as [|c s] eqn:E; simpl.
  - split; [intros _; left; reflexivity | intros _; eexists; reflexivity].
  - destruct field; simpl;
      try (split; [intros [m Hm]; discriminate
                  | intros [H|[H _]]; discriminate]).
    destruct (matchesInstitutional (fd_email data)).
    + split; [intros [m Hm]; discriminate | intros [H|[_ H]]; discriminate].
    + split; [intros _; right; split; reflexivity | intros _; eexists; reflexivity].
Qed.

Lemma key_cases (k : jsstring) :
  (exists field, k = key field) \/ (forall field, key field <> k).
Proof.
  destruct (decide (k = key email)); [left; eexists; eassumption|].
  destruct (decide (k = key name)); [left; eexists; eassumption|].
  destruct (decide (k = key major)); [left; eexists; eassumption|].
  destruct (decide (k = key year)); [left; eexists; eassumption|].
  destruct (decide (k = key mentorGoals)); [left; eexists; eassumption|].
  destruct (decide (k = key hobbies)); [left; eexists; eassumption|].
  right. intros []; congruence.
Qed.

(** C7.  The result of the validator has an entry under the name of a
    field exactly when the field is invalid (empty after trimming, or, for
    the email field, not matching the institutional pattern), and no entry
    under any other name.  So when the name field is empty after trimming
    and every other field is valid, the result is the single entry of the
    name field. *)
Theorem validateForm_exact :
  forall data,
    (forall field, is_Some (validateForm data !! key field) <-> invalid data field)
    /\ (forall k, is_Some (validateForm data !! k) -> exists field, k = key field)
    /\ (trim (fd_name data) = [] ->
        (forall field, field <> name -> ~ invalid data field) ->
        validateForm data = {[ key name := required name ]}).
Proof.
  intros data. split; [|split].
  - intros field. rewrite validateForm_lookup. apply check_invalid.
  - intros k Hk.
    destruct (key_cases k) as [Hf|Hno]; [exact Hf|].
    rewrite (validateForm_lookup_other data k Hno) in Hk.
    destruct Hk; discriminate.
  - intros Hname Hothers. apply map_eq. intros k.
    destruct (decide (k = key name)) as [->|Hk].
    + rewrite validateForm_lookup, lookup_singleton_eq.
      unfold check. simpl. rewrite Hname. reflexivity.
    + rewrite lookup_singleton_ne by congruence.
      destruct (validateForm data !! k) as [m|] eqn:E; [|reflexivity].
      exfalso.
      assert (Hs : is_Some (validateForm data !! k)) by (rewrite E; eexists; reflexivity).
      destruct (key_cases k) as [[f ->]|Hno].
      * rewrite validateForm_lookup in Hs. apply check_invalid in Hs.
        apply (Hothers f); [congruence | exact Hs].
      * rewrite (validateForm_lookup_other data k Hno) in E. discriminate.
Qed.

Lemma validateForm_exact_witness :
  validateForm
    {| fd_email := js "abc1234@rit.edu"; fd_name := js "  ";
       fd_major := js "Computer Science"; fd_year := js "Third Year";
       fd_mentorGoals := js "Share advice"; fd_hobbies := js "Chess" |}
  = {[ key name := required name ]}.
Proof.
  apply (proj2 (proj2 (validateForm_exact
           {| fd_email := js "abc1234@rit.edu"; fd_name := js "  ";
              fd_major := js "Computer Science"; fd_year := js "Third Year";
              fd_mentorGoals := js "Share advice"; fd_hobbies := js "Chess" |}))).
  - reflexivity.
  - intros field Hne [H|[_ H]].
    + destruct field; try (vm_compute in H; discriminate). apply Hne. reflexivity.
    + vm_compute in H. discriminate.
Defined.

(** C8.  Whatever the other fields hold, the result has no entry for the
    email field when its value is [abc1234@rit.edu], and has the entry of
    an address that does not match the institutional pattern when its
    value is [abc1234@gmail.com]. *)
Theorem institutional_email :
  forall data,
    (fd_email data = js "abc1234@rit.edu" ->
     validateForm data !! key email = None)
    /\ (fd_email data = js "abc1234@gmail.com" ->
        validateForm data !! key email = Some notInstitutional).
Proof.
  intros data. split; intros H; rewrite validateForm_lookup;
    unfold check; simpl; rewrite H; reflexivity.
Qed.

Lemma institutional_email_witness :
  validateForm
    {| fd_email := js "abc1234@rit.edu"; fd_name := js "Ada";
       fd_major := js "Computer Science"; fd_year := js "Third Year";
       fd_mentorGoals := js "Share advice"; fd_hobbies := js "Chess" |}
  !! key email = None
  /\ validateForm
       {| fd_email := js "abc1234@gmail.com"; fd_name := js "Ada";
          fd_major := js "Computer Science"; fd_year := js "Third Year";
          fd_mentorGoals := js "Share advice"; fd_hobbies := js "Chess" |}
     !! key email = Some notInstitutional.
Proof.
  split.
  - apply (proj1 (institutional_email
             {| fd_email := js "abc1234@rit.edu"; fd_name := js "Ada";
                fd_major := js "Computer Science"; fd_year := js "Third Year";
                fd_mentorGoals := js "Share advice"; fd_hobbies := js "Chess" |})).
    reflexivity.
  - apply (proj2 (institutional_email
             {| fd_email := js "abc1234@gmail.com"; fd_name := js "Ada";
                fd_major := js "Computer Science"; fd_year := js "Third Year";
                fd_mentorGoals := js "Share advice"; fd_hobbies := js "Chess" |})).
    reflexivity.
Defined.

End Validator.

(** ** Splitting, trimming and wrapping quotes *)

Section Splitting.

Import Simple.

Lemma splitOn_nonempty d s : splitOn d s <> [].
Proof.
  destruct s as [|c s]; simpl; [discriminate|].
  destruct (c =? d)%N; [discriminate|].
  destruct (splitOn d s); discriminate.
Qed.

Lemma prefixHead_nil segments : segments <> [] -> prefixHead [] segments = segments.
Proof. destruct segments; [congruence | reflexivity]. Qed.

Lemma prefixHead_consHead s c segments :
  segments <> [] ->
  prefixHead s (consHead c segments) = prefixHead (s ++ [c]) segments.
Proof.
  destruct segments as [|h t]; [congruence|]. intros _. simpl.
  rewrite <- app_assoc. reflexivity.
Qed.

(** The first segment is empty at the end of the string and in front of a
    separator only. *)
Lemma splitOn_head_nil d s others :
  splitOn d s = [] :: others ->
  (s = [] /\ others = []) \/ (exists s', s = d :: s' /\ others = splitOn d s').
Proof.
  destruct s as [|c s]; simpl.
  - intros H. injection H as <-. left. split; reflexivity.
  - destruct (c =? d)%N eqn:E.
    + apply N.eqb_eq in E. subst c. intros H. injection H as <-.
      right. exists s. split; reflexivity.
    + pose proof (splitOn_nonempty d s).
      destruct (splitOn d s); [congruence | discriminate].
Qed.

(** A first segment that is not empty starts with the first code unit of
    the string. *)
Lemma splitOn_head_cons d s c first others :
  splitOn d s = (c :: first) :: others ->
  exists s', s = c :: s' /\ c <> d /\ splitOn d s' = first :: others.
Proof.
  destruct s as [|e s]; simpl; [discriminate|].
  destruct (e =? d)%N eqn:E; [discriminate|].
  pose proof (splitOn_nonempty d s).
  destruct (splitOn d s) as [|h t] eqn:Es; [congruence|]. simpl.
  intros Heq. injection Heq as -> -> ->.
  exists s. apply N.eqb_neq in E. repeat split; assumption.
Qed.

Lemma noQuote_cons c s :
  noQuote (c :: s) = true -> c <> dquote /\ noQuote s = true.
Proof.
  unfold noQuote. simpl. intros H. apply andb_prop in H as [Hc Hs].
  apply negb_true_iff, N.eqb_neq in Hc. auto.
Qed.

Lemma noQuote_In s : noQuote s = true <-> ~ In dquote s.
Proof.
  unfold noQuote. rewrite forallb_forall. split.
  - intros H Hin. specialize (H _ Hin). discriminate.
  - intros H c Hc. apply negb_true_iff, N.eqb_neq. intros ->. contradiction.
Qed.

Lemma noQuote_trim s : noQuote s = true -> noQuote (trim s) = true.
Proof. rewrite !noQuote_In. intros H Hin. apply H, trim_incl, Hin. Qed.

Lemma noQuote_snoc s c :
  noQuote s = true -> c <> dquote -> noQuote (s ++ [c]) = true.
Proof.
  unfold noQuote. rewrite forallb_app. intros -> Hc. simpl.
  apply N.eqb_neq in Hc. rewrite Hc. reflexivity.
Qed.

Lemma spaces_noQuote s : forallb isWhiteSpace s = true -> noQuote s = true.
Proof.
  intros H. apply noQuote_In. intros Hin.
  rewrite forallb_forall in H. specialize (H _ Hin). discriminate.
Qed.

Lemma unquoted_app a b : unquoted (a ++ b) = unquoted a ++ unquoted b.
Proof. apply List.filter_app. Qed.

Lemma unquoted_noQuote s : noQuote s = true -> unquoted s = s.
Proof.
  unfold noQuote, unquoted. induction s as [|c s IH]; simpl; [reflexivity|].
  intros H. apply andb_prop in H as [Hc Hs]. rewrite Hc, IH by exact Hs.
  reflexivity.
Qed.

Lemma unquoted_snoc s c :
  c <> dquote -> unquoted (s ++ [c]) = unquoted s ++ [c].
Proof.
  intros Hc. rewrite unquoted_app. unfold unquoted at 2. simpl.
  apply N.eqb_neq in Hc. rewrite Hc. reflexivity.
Qed.

Lemma unquoted_snoc_quote s : unquoted (s ++ [dquote]) = unquoted s.
Proof. rewrite unquoted_app. simpl. apply app_nil_r. Qed.

Lemma trim_spaces_before pre s :
  forallb isWhiteSpace pre = true -> trim (pre ++ s) = trim s.
Proof.
  induction pre as [|w pre IH]; simpl; [reflexivity|].
  intros H. apply andb_prop in H as [Hw Hpre].
  rewrite trim_cons_space by exact Hw. apply IH, Hpre.
Qed.

Lemma trim_spaces_after post : forall s,
  forallb isWhiteSpace post = true -> trim (s ++ post) = trim s.
Proof.
  induction post as [|w post IH]; intros s; simpl.
  - rewrite app_nil_r. reflexivity.
  - intros H. apply andb_prop in H as [Hw Hpost].
    change (w :: post) with ([w] ++ post). rewrite app_assoc.
    rewrite IH by exact Hpost. apply trim_snoc_space, Hw.
Qed.

Lemma trimEnd_snoc_nonspace s c :
  isWhiteSpace c = false -> trimEnd (s ++ [c]) = s ++ [c].
Proof.
  intros Hc. induction s as [|d s IH]; simpl.
  - rewrite Hc. reflexivity.
  - rewrite IH. destruct (s ++ [c]) eqn:E; [|reflexivity].
    destruct s; discriminate.
Qed.

(** A string wrapped in quotes is trimmed already. *)
Lemma trim_wrapped body :
  trim (dquote :: body ++ [dquote]) = dquote :: body ++ [dquote].
Proof.
  unfold trim. simpl trimStart.
  change (dquote :: body ++ [dquote]) with ((dquote :: body) ++ [dquote]).
  apply trimEnd_snoc_nonspace. reflexivity.
Qed.

Lemma forallb_reverse (f : codeunit -> bool) s :
  forallb f (rev s) = forallb f s.
Proof.
  induction s as [|c s IH]; simpl; [reflexivity|].
  rewrite forallb_app, IH. simpl. rewrite andb_true_r. apply andb_comm.
Qed.

(** The wrapping quotes are stripped when no line terminator stands
    between them. *)
Lemma stripQuotes_wrapped body :
  noLineTerminator body = true ->
  LiveResponsesTable.stripQuotes (dquote :: body ++ [dquote]) = body.
Proof.
  intros H. unfold LiveResponsesTable.stripQuotes.
  rewrite rev_app_distr. simpl.
  unfold noLineTerminator in H.
  rewrite forallb_reverse, H. apply rev_involutive.
Qed.

Lemma stripQuotes_noQuote s :
  noQuote s = true -> LiveResponsesTable.stripQuotes s = s.
Proof.
  destruct s as [|c s]; [reflexivity|]. intros H.
  apply noQuote_cons in H as [Hc _]. apply N.eqb_neq in Hc.
  simpl. destruct (rev s); [reflexivity|]. rewrite Hc. reflexivity.
Qed.

End Splitting.

(** ** The record parser on simply quoted lines *)

Section RecordLines.

Import Simple LiveResponsesTable.

Lemma fold_pushLine segments : forall ls,
  fold_left pushLine segments ls
  = ls ++ map trim (List.filter (fun l => truthy (trim l)) segments).
Proof.
  induction segments as [|l segments IH]; intros ls; simpl.
  - rewrite app_nil_r. reflexivity.
  - rewrite IH. unfold pushLine. destruct (truthy (trim l)); simpl.
    + rewrite <- app_assoc. reflexivity.
    + reflexivity.
Qed.



Lemma acceptsLines_tail ph first others :
  acceptsLines ph (first :: others) = true ->
  others <> [] -> acceptsLines Blank others = true.
Proof.
  simpl. intros H Hne. apply andb_prop in H as [_ H].
  destruct others as [|l ls]; [congruence|]. exact H.
Qed.



(** Whitespace in front of a field does not change the fields of the
    line. *)
Lemma finishFields_cons_space w :
  isWhiteSpace w = true ->
  forall line fs field q,
    finishFields
      (fieldLoop {| fields := fs; currentField := w :: field;
                    fieldInsideQuote := q |} line)
    = finishFields
        (fieldLoop {| fields := fs; currentField := field;
                      fieldInsideQuote := q |} line).
Proof.
  intros Hw. unfold fieldLoop.
  induction line as [|c line IH]; intros fs field q.
  - unfold finishFields. simpl. rewrite trim_cons_space by exact Hw. reflexivity.
  - simpl fold_left. unfold fieldBody at 2 4. simpl.
    destruct (c =? dquote)%N; [apply IH|].
    destruct ((c =? comma)%N && negb q); [|apply IH].
    rewrite trim_cons_space by exact Hw. reflexivity.
Qed.

Lemma parseLine_cons_space w line :
  isWhiteSpace w = true -> parseLine (w :: line) = parseLine line.
Proof.
  intros Hw. unfold parseLine. change (fields ?s ++ [stripQuotes (trim (currentField ?s))])
    with (finishFields s).
  unfold fieldLoop. simpl fold_left. unfold fieldBody at 2.
  assert (Hq : (w =? dquote)%N = false)
    by (apply N.eqb_neq; intros ->; discriminate).
  assert (Hc : (w =? comma)%N = false)
    by (apply N.eqb_neq; intros ->; discriminate).
  rewrite Hq, Hc. simpl.
  apply (finishFields_cons_space w Hw line [] [] false).
Qed.

Lemma parseLine_snoc_space w line :
  isWhiteSpace w = true -> parseLine (line ++ [w]) = parseLine line.
Proof.
  intros Hw. unfold parseLine, fieldLoop. rewrite fold_left_app. simpl.
  assert (Hq : (w =? dquote)%N = false)
    by (apply N.eqb_neq; intros ->; discriminate).
  assert (Hc : (w =? comma)%N = false)
    by (apply N.eqb_neq; intros ->; discriminate).
  unfold fieldBody at 1 3. rewrite Hq, Hc. simpl.
  rewrite trim_snoc_space by exact Hw. reflexivity.
Qed.

Lemma parseLine_spaces_before pre line :
  forallb isWhiteSpace pre = true -> parseLine (pre ++ line) = parseLine line.
Proof.
  induction pre as [|w pre IH]; simpl; [reflexivity|].
  intros H. apply andb_prop in H as [Hw Hpre].
  rewrite parseLine_cons_space by exact Hw. apply IH, Hpre.
Qed.

Lemma parseLine_spaces_after post : forall line,
  forallb isWhiteSpace post = true -> parseLine (line ++ post) = parseLine line.
Proof.
  induction post as [|w post IH]; intros line; simpl.
  - rewrite app_nil_r. reflexivity.
  - intros H. apply andb_prop in H as [Hw Hpost].
    change (w :: post) with ([w] ++ post). rewrite app_assoc.
    rewrite IH by exact Hpost. apply parseLine_snoc_space, Hw.
Qed.

Lemma trimStart_decompose s :
  exists a, s = a ++ trimStart s /\ forallb isWhiteSpace a = true.
Proof.
  induction s as [|c s [a [Ha Hs]]]; simpl.
  - exists []. split; reflexivity.
  - destruct (isWhiteSpace c) eqn:Hc.
    + exists (c :: a). simpl. rewrite Hc, Hs. split; [congruence | reflexivity].
    + exists []. split; reflexivity.
Qed.

Lemma trimEnd_decompose s :
  exists b, s = trimEnd s ++ b /\ forallb isWhiteSpace b = true.
Proof.
  induction s as [|c s [b [Hb Hs]]]; simpl.
  - exists []. split; reflexivity.
  - destruct (trimEnd s) as [|d r] eqn:E.
    + simpl in Hb. subst b. destruct (isWhiteSpace c) eqn:Hc.
      * exists (c :: s). simpl. rewrite Hc, Hs. split; reflexivity.
      * exists s. split; [reflexivity | exact Hs].
    + exists b. split; [|exact Hs]. simpl. simpl in Hb. congruence.
Qed.

(** A string is its trimmed form between two runs of whitespace. *)
Lemma trim_decompose s :
  exists a b, s = a ++ trim s ++ b
              /\ forallb isWhiteSpace a = true /\ forallb isWhiteSpace b = true.
Proof.
  destruct (trimStart_decompose s) as [a [Ha Hsa]].
  destruct (trimEnd_decompose (trimStart s)) as [b [Hb Hsb]].
  exists a, b. unfold trim. rewrite <- Hb. auto.
Qed.

(** The record parser trims a line before it cuts it into fields; the
    fields are the same without. *)
Lemma parseLine_trim line : parseLine (trim line) = parseLine line.
Proof.
  destruct (trim_decompose line) as [a [b [E [Ha Hb]]]].
  rewrite E at 2.
  rewrite parseLine_spaces_before by exact Ha.
  rewrite parseLine_spaces_after by exact Hb. reflexivity.
Qed.



End RecordLines.

(** ** The two parsers on simply quoted texts *)

Section SimpleTexts.

Import Simple LiveResponsesTable CSVDataTable.

Lemma fold_pushRow table : forall rs,
  fold_left pushRow table rs = rs ++ List.filter someNonEmpty table.
Proof.
  induction table as [|row table IH]; intros rs; simpl.
  - rewrite app_nil_r. reflexivity.
  - rewrite IH. unfold pushRow. destruct (someNonEmpty row); simpl.
    + rewrite <- app_assoc. reflexivity.
    + reflexivity.
Qed.

Lemma rowsOfLines_init segments :
  rowsOfLines fieldInit segments = map parseLine segments.
Proof. destruct segments; reflexivity. Qed.

(** Outside quotes the two parsers hold the same value for the current
    field. *)
Lemma related_value ph st fs :
  related ph st fs -> isOpen ph = false ->
  currentRow st ++ [trim (current st)] = finishFields fs.
Proof.
  intros (Hrow & _ & _ & Hcur & Hshape) Hopen.
  unfold finishFields. rewrite Hrow, Hcur. do 2 f_equal.
  destruct ph as [| |e ls|]; simpl in Hshape; [| |discriminate|].
  - apply spaces_noQuote in Hshape.
    rewrite unquoted_noQuote by exact Hshape.
    symmetry. apply stripQuotes_noQuote, noQuote_trim, Hshape.
  - rewrite unquoted_noQuote by exact Hshape.
    symmetry. apply stripQuotes_noQuote, noQuote_trim, Hshape.
  - destruct Hshape as (pre & body & post & -> & Hpre & Hpost & Hq & Hlt & Htrim).
    rewrite unquoted_app. simpl. rewrite unquoted_app. simpl.
    rewrite !unquoted_noQuote by (assumption || apply spaces_noQuote; assumption).
    rewrite trim_spaces_before by exact Hpre.
    rewrite trim_spaces_after by exact Hpost.
    rewrite trim_spaces_before by exact Hpre.
    change (dquote :: body ++ dquote :: post)
      with ((dquote :: body) ++ [dquote] ++ post).
    rewrite app_assoc, trim_spaces_after by exact Hpost.
    change ((dquote :: body) ++ [dquote]) with (dquote :: body ++ [dquote]).
    rewrite trim_wrapped, stripQuotes_wrapped by exact Hlt. exact Htrim.
Qed.

Lemma finishFields_cr fs :
  finishFields (fieldBody fs cr) = finishFields fs.
Proof.
  unfold finishFields, fieldBody. simpl.
  rewrite trim_snoc_space by reflexivity. reflexivity.
Qed.

Lemma related_endRow st :
  inQuotes st = false -> related Blank (endRow st) fieldInit.
Proof. intros Hq. unfold related. simpl. auto. Qed.

Lemma step_not_open_cr ph last ph' :
  step ph cr last = Some ph' -> isOpen ph = false /\ last = true /\ ph' = ph.
Proof.
  unfold step. simpl.
  destruct ph as [| |e ls|]; destruct last; intros H; try discriminate;
    injection H as <-; auto.
Qed.

Lemma step_closed_not_quote c last :
  step Closed c last <> None -> c <> dquote.
Proof. intros H ->. apply H. reflexivity. Qed.

(** One code unit that neither parser takes for the end of the line keeps
    the two parsers side by side. *)
Lemma related_step ph st fs c last n ph' :
  related ph st fs ->
  c <> nl -> c <> cr ->
  step ph c last = Some ph' ->
  (c = dquote -> isOpen ph = true -> nextIs n dquote = false) ->
  snd (body st c n) = false
  /\ rows (fst (body st c n)) = rows st
  /\ related ph' (fst (body st c n)) (fieldBody fs c).
Proof.
  intros Hrel Hnl Hcr Hstep Hnext.
  pose proof Hrel as (Hrow & Hq1 & Hq0 & Hcur & Hshape).
  unfold body, fieldBody, related.
  apply N.eqb_neq in Hnl, Hcr.
  destruct (c =? dquote)%N eqn:Equote.
  - (* a quote *)
    apply N.eqb_eq in Equote. subst c. unfold step in Hstep. simpl in Hstep.
    destruct ph as [| |e [|]|]; try discriminate; injection Hstep as <-.
    + (* the opening quote *)
      simpl in *. rewrite Hq1, Hq0. simpl. rewrite ?Hq1.
      split; [reflexivity|]. split; [reflexivity|].
      split; [exact Hrow|]. split; [reflexivity|]. split; [reflexivity|].
      split; [rewrite unquoted_snoc_quote; exact Hcur|].
      exists (currentField fs), [].
      split; [reflexivity|]. split; [exact Hshape|]. repeat split.
    + (* the closing quote *)
      simpl in *. rewrite Hq1, Hq0, (Hnext eq_refl eq_refl). simpl.
      rewrite ?Hq1.
      split; [reflexivity|]. split; [reflexivity|].
      split; [exact Hrow|]. split; [reflexivity|]. split; [reflexivity|].
      split; [rewrite unquoted_snoc_quote; exact Hcur|].
      destruct Hshape as (pre & bd & E & Hpre & Hq & Hlt & He & Hls).
      exists pre, bd, []. rewrite E, <- app_assoc. simpl.
      split; [reflexivity|]. split; [exact Hpre|]. split; [reflexivity|].
      split; [exact Hq|]. split; [exact Hlt|].
      unfold trim. destruct e.
      * subst bd. reflexivity.
      * destruct He as [-> _]. apply Hls. reflexivity.
  - (* any other code unit *)
    pose proof Equote as Hc. apply N.eqb_neq in Hc.
    unfold step in Hstep. rewrite Equote in Hstep.
    destruct ph as [| |e ls|].
    + (* only whitespace so far *)
      simpl in *. rewrite Hq1, Hq0, Hnl, Hcr in *. simpl.
      destruct (c =? comma)%N eqn:Ecomma; injection Hstep as <-; simpl;
        rewrite ?Hq1, ?Hq0.
      * split; [reflexivity|]. split; [reflexivity|].
        split; [apply (related_value Blank st fs Hrel eq_refl)|].
        repeat split.
      * destruct (isWhiteSpace c) eqn:Ews; simpl;
          (split; [reflexivity|]); (split; [reflexivity|]);
          (split; [exact Hrow|]); (split; [reflexivity|]);
          (split; [reflexivity|]);
          (split; [rewrite unquoted_snoc by exact Hc; congruence|]).
        -- rewrite forallb_app, Hshape. simpl. rewrite Ews. reflexivity.
        -- apply noQuote_snoc; [apply spaces_noQuote, Hshape | exact Hc].
    + (* a field without quotes *)
      simpl in *. rewrite Hq1, Hq0, Hnl, Hcr in *. simpl.
      destruct (c =? comma)%N eqn:Ecomma; injection Hstep as <-; simpl;
        rewrite ?Hq1, ?Hq0.
      * split; [reflexivity|]. split; [reflexivity|].
        split; [apply (related_value Bare st fs Hrel eq_refl)|].
        repeat split.
      * split; [reflexivity|]. split; [reflexivity|].
        split; [exact Hrow|]. split; [reflexivity|]. split; [reflexivity|].
        split; [rewrite unquoted_snoc by exact Hc; congruence|].
        apply noQuote_snoc; assumption.
    + (* between the wrapping quotes *)
      simpl in *. rewrite Hq1, Hq0. simpl. rewrite !andb_false_r.
      destruct Hshape as (pre & bd & E & Hpre & Hq & Hlt & He & Hls).
      destruct (isLineTerminator c) eqn:Elt; [discriminate|].
      assert (Hshape' : forall ls',
                 (isWhiteSpace c = true -> e = false) ->
                 (ls' = false -> isWhiteSpace c = false) ->
                 shape (Open false ls') (currentField fs ++ [c])).
      { intros ls' Hws Hls'. exists pre, (bd ++ [c]).
        rewrite E, <- app_assoc. simpl.
        split; [reflexivity|]. split; [exact Hpre|].
        split; [apply noQuote_snoc; assumption|].
        split; [unfold noLineTerminator in *; rewrite forallb_app, Hlt; simpl;
                rewrite Elt; reflexivity|].
        split.
        - destruct e.
          + subst bd. simpl.
            destruct (isWhiteSpace c) eqn:Ews;
              [specialize (Hws eq_refl); discriminate|].
            split; [reflexivity | discriminate].
          + destruct He as [Hts Hne]. destruct bd as [|h t]; [congruence|].
            pose proof (trimStart_head (h :: t)) as Hh. rewrite Hts in Hh.
            simpl. rewrite Hh. split; [reflexivity | discriminate].
        - intros H. apply trimEnd_snoc_nonspace, Hls', H. }
      destruct (isWhiteSpace c) eqn:Ews.
      * destruct e; [discriminate|]. injection Hstep as <-. simpl.
        rewrite ?Hq1, ?Hq0.
        split; [reflexivity|]. split; [reflexivity|].
        split; [exact Hrow|]. split; [reflexivity|]. split; [reflexivity|].
        split; [rewrite unquoted_snoc by exact Hc; simpl; congruence|].
        apply Hshape'; [reflexivity | discriminate].
      * injection Hstep as <-. simpl. rewrite ?Hq1, ?Hq0.
        split; [reflexivity|]. split; [reflexivity|].
        split; [exact Hrow|]. split; [reflexivity|]. split; [reflexivity|].
        split; [rewrite unquoted_snoc by exact Hc; simpl; congruence|].
        apply Hshape'; [discriminate | reflexivity].
    + (* after the closing quote *)
      simpl in *. rewrite Hq1, Hq0, Hnl, Hcr in *. simpl.
      destruct (c =? comma)%N eqn:Ecomma; [injection Hstep as <-; simpl|].
      * rewrite ?Hq1, ?Hq0.
        split; [reflexivity|]. split; [reflexivity|].
        split; [apply (related_value Closed st fs Hrel eq_refl)|].
        repeat split.
      * destruct (isWhiteSpace c) eqn:Ews; [|discriminate].
        injection Hstep as <-. simpl. rewrite ?Hq1, ?Hq0.
        split; [reflexivity|]. split; [reflexivity|].
        split; [exact Hrow|]. split; [reflexivity|]. split; [reflexivity|].
        split; [rewrite unquoted_snoc by exact Hc; congruence|].
        destruct Hshape as (pre & bd & post & E & Hpre & Hpost & Hq & Hlt & Ht).
        exists pre, bd, (post ++ [c]). rewrite E.
        split; [rewrite <- app_assoc; simpl; rewrite <- app_assoc; reflexivity|].
        split; [exact Hpre|].
        split; [rewrite forallb_app, Hpost; simpl; rewrite Ews; reflexivity|].
        repeat split; assumption.
Qed.

Lemma accepts_cons ph c line :
  accepts ph (c :: line) = true ->
  exists ph',
    step ph c (match line with [] => true | _ => false end) = Some ph'
    /\ accepts ph' line = true.
Proof.
  simpl.
  destruct (step ph c (match line with [] => true | _ => false end)) as [ph'|];
    [|discriminate].
  intros H. exists ph'. split; [reflexivity | exact H].
Qed.

(** After the closing quote of a simply quoted line, the text does not go
    on with a quote. *)
Lemma next_not_quote rest first others :
  splitOn nl rest = first :: others ->
  accepts Closed first = true ->
  nextIs (head rest) dquote = false.
Proof.
  intros Es Hacc. destruct rest as [|d rest']; [reflexivity|]. simpl.
  apply N.eqb_neq. intros ->. simpl in Es.
  pose proof (splitOn_nonempty nl rest').
  destruct (splitOn nl rest') as [|h t]; [congruence|].
  simpl in Es. injection Es as <- <-. simpl in Hacc. discriminate.
Qed.

(** On a text of simply quoted lines, the table parser pushes the rows
    that the field loop of the record parser makes of the lines. *)
Lemma loop_simple : forall text st fs ph,
  related ph st fs ->
  acceptsLines ph (splitOn nl text) = true ->
  finish (loop st text)
  = fold_left pushRow (rowsOfLines fs (splitOn nl text)) (rows st).
Proof.
  refine (loop_induction _ _ _).
  - intros st fs ph Hrel Hacc. simpl in *.
    rewrite andb_true_r in Hacc. apply negb_true_iff in Hacc.
    rewrite finish_pushRow, (related_value ph st fs Hrel Hacc). reflexivity.
  - intros st c rest IH fs ph Hrel Hacc. rewrite loop_cons.
    pose proof Hrel as (Hrow & Hq1 & Hq0 & Hcur & Hshape).
    pose proof (splitOn_nonempty nl rest) as Hne.
    simpl splitOn in *.
    destruct (c =? nl)%N eqn:Enl.
    + (* the end of the line *)
      apply N.eqb_eq in Enl. subst c.
      assert (Hopen : isOpen ph = false).
      { simpl in Hacc. apply andb_prop in Hacc as [Hacc _].
        apply negb_true_iff in Hacc. exact Hacc. }
      unfold iteration, body in *. simpl in IH |- *.
      rewrite Hq1, Hopen in *. simpl in IH |- *.
      rewrite (IH fieldInit Blank).
      * simpl. rewrite rowsOfLines_init.
        rewrite (related_value ph st fs Hrel Hopen). reflexivity.
      * apply related_endRow. congruence.
      * eapply acceptsLines_tail; eassumption.
    + destruct (splitOn nl rest) as [|first others] eqn:Es; [congruence|].
      simpl consHead in *. simpl in Hacc.
      apply andb_prop in Hacc as [Hacc Hothers].
      destruct (step ph c (match first with [] => true | _ => false end))
        as [ph'|] eqn:Estep; [|discriminate].
      destruct (c =? cr)%N eqn:Ecr.
      * (* a carriage return at the end of the line *)
        apply N.eqb_eq in Ecr. subst c.
        apply step_not_open_cr in Estep as (Hopen & Hlast & ->).
        destruct first; [|discriminate].
        unfold iteration, body in *. simpl in IH |- *.
        rewrite Hq1, Hopen in *. simpl in IH |- *.
        destruct (splitOn_head_nil nl rest others Es)
          as [[-> ->]|[rest' [-> ->]]].
        -- simpl. rewrite finish_endRow, finish_pushRow.
           change (fieldLoop fs [cr]) with (fieldBody fs cr).
           rewrite finishFields_cr, (related_value ph st fs Hrel Hopen).
           reflexivity.
        -- simpl in IH |- *. rewrite (IH fieldInit Blank).
           ++ simpl. rewrite rowsOfLines_init.
              change (fieldLoop fs [cr]) with (fieldBody fs cr).
              rewrite finishFields_cr, (related_value ph st fs Hrel Hopen).
              reflexivity.
           ++ apply related_endRow. congruence.
           ++ pose proof (splitOn_nonempty nl rest').
              destruct (splitOn nl rest'); [congruence | exact Hothers].
      * (* a code unit within the line *)
        apply N.eqb_neq in Enl, Ecr.
        assert (Hnext : c = dquote -> isOpen ph = true ->
                        nextIs (head rest) dquote = false).
        { intros -> Hopen. apply (next_not_quote rest first others Es).
          unfold step in Estep. simpl in Estep.
          destruct ph as [| |e [|]|]; try discriminate.
          injection Estep as <-. exact Hacc. }
        destruct (related_step ph st fs c _ (head rest) ph'
                    Hrel Enl Ecr Estep Hnext) as (Hskip & Hrows & Hrel').
        unfold iteration in *.
        destruct (body st c (head rest)) as [st' skip]. simpl in *. subst skip.
        rewrite (IH (fieldBody fs c) ph' Hrel').
        -- rewrite Hrows, Es. reflexivity.
        -- rewrite Es. simpl. rewrite Hacc, Hothers. reflexivity.
Qed.

(** On a text of simply quoted lines the table parser makes the rows that
    [parseLine] makes of the lines, and drops those without a non-empty
    field. *)
Lemma parseCSV_simple text :
  acceptsLines Blank (splitOn nl text) = true ->
  CSVDataTable.parseCSV text
  = List.filter someNonEmpty (map parseLine (splitOn nl text)).
Proof.
  intros Hacc. unfold CSVDataTable.parseCSV.
  rewrite (loop_simple text init fieldInit Blank);
    [|unfold related; simpl; repeat split|exact Hacc].
  rewrite rowsOfLines_init. apply fold_pushRow.
Qed.






End SimpleTexts.

(** ** More on the table parser *)

Section TableMore.

Import CSVDataTable Lexical.

(** X1.  Every field of the table is trimmed, and no row is without
    fields. *)
Theorem table_fields_trimmed :
  forall text row,
    In row (parseCSV text) ->
    row <> [] /\ forall cell, In cell row -> trim cell = cell.
Proof.
  intros text row Hrow.
  pose proof (parseCSV_rows_kept text) as H.
  rewrite List.Forall_forall in H. destruct (H row Hrow) as [Htrim [cell [Hc _]]].
  split; [intros ->; destruct Hc|].
  rewrite List.Forall_forall in Htrim. exact Htrim.
Qed.

Lemma table_fields_trimmed_witness :
  [js "a"; js "b c"] <> []
  /\ forall cell, In cell [js "a"; js "b c"] -> trim cell = cell.
Proof.
  apply (table_fields_trimmed (js " a , b c  " ++ [nl] ++ js " ")).
  vm_compute. left. reflexivity.
Defined.

Lemma incl_snoc (s text : jsstring) c :
  incl s text -> In c text -> incl (s ++ [c]) text.
Proof. intros Hs Hc. apply incl_app; [exact Hs | intros d [<-|[]]; exact Hc]. Qed.

Lemma incl_trim (s text : jsstring) : incl s text -> incl (trim s) text.
Proof. intros H c Hc. apply H, trim_incl, Hc. Qed.

Lemma pushRow_incl (text : jsstring) rs row :
  Forall (Forall (fun cell => incl cell text)) rs ->
  Forall (fun cell => incl cell text) row ->
  Forall (Forall (fun cell => incl cell text)) (pushRow rs row).
Proof.
  intros Hrs Hrow. unfold pushRow. destruct (someNonEmpty row); [|exact Hrs].
  apply Forall_app. split; [exact Hrs | constructor; [exact Hrow | constructor]].
Qed.

Lemma snoc_incl (text : jsstring) row s :
  Forall (fun cell => incl cell text) row -> incl s text ->
  Forall (fun cell => incl cell text) (row ++ [trim s]).
Proof.
  intros Hrow Hs. apply Forall_app.
  split; [exact Hrow | constructor; [apply incl_trim, Hs | constructor]].
Qed.

Lemma body_incl (text : jsstring) st c n :
  In c text ->
  incl (current st) text
  /\ Forall (fun cell => incl cell text) (currentRow st)
  /\ Forall (Forall (fun cell => incl cell text)) (rows st) ->
  incl (current (fst (body st c n))) text
  /\ Forall (fun cell => incl cell text) (currentRow (fst (body st c n)))
  /\ Forall (Forall (fun cell => incl cell text)) (rows (fst (body st c n))).
Proof.
  intros Hc (Hcur & Hrow & Hrows). unfold body.
  destruct (c =? dquote)%N eqn:Eq.
  { apply N.eqb_eq in Eq. subst c.
    destruct (inQuotes st && nextIs n dquote); simpl;
      [split; [apply incl_snoc; assumption | split; assumption]
      | split; [assumption | split; assumption]]. }
  destruct ((c =? comma)%N && negb (inQuotes st)).
  { simpl. split; [intros d []|]. split; [apply snoc_incl; assumption | exact Hrows]. }
  destruct (((c =? nl)%N || (c =? cr)%N) && negb (inQuotes st)).
  { simpl. split; [intros d []|]. split; [constructor|].
    apply pushRow_incl; [exact Hrows | apply snoc_incl; assumption]. }
  simpl. split; [apply incl_snoc; assumption | split; assumption].
Qed.

(** X2.  The table parser invents nothing: every code unit of every field
    of the table occurs in the text. *)
Theorem table_units_from_text :
  forall text row cell c,
    In row (parseCSV text) -> In cell row -> In c cell -> In c text.
Proof.
  intros text row cell c Hrow Hcell Hc.
  assert (H : incl (current (loop init text)) text
              /\ Forall (fun cell => incl cell text) (currentRow (loop init text))
              /\ Forall (Forall (fun cell => incl cell text))
                   (rows (loop init text))).
  { apply (loop_invariant
             (fun st => incl (current st) text
                        /\ Forall (fun cell => incl cell text) (currentRow st)
                        /\ Forall (Forall (fun cell => incl cell text)) (rows st))
             (fun c => In c text)).
    - intros st d n. apply body_incl.
    - apply List.Forall_forall. auto.
    - simpl. split; [intros d []|]. split; constructor. }
  destruct H as (Hcur & Hcr & Hrows).
  assert (Hall : Forall (Forall (fun cell => incl cell text)) (parseCSV text)).
  { unfold parseCSV. rewrite finish_pushRow.
    apply pushRow_incl; [exact Hrows | apply snoc_incl; assumption]. }
  rewrite List.Forall_forall in Hall. specialize (Hall row Hrow).
  rewrite List.Forall_forall in Hall. apply (Hall cell Hcell c Hc).
Qed.

Lemma table_units_from_text_witness :
  In 98%N (js "a," ++ [dquote] ++ js "b" ++ [dquote]).
Proof.
  apply (table_units_from_text (js "a," ++ [dquote] ++ js "b" ++ [dquote])
           [js "a"; js "b"] (js "b") 98%N).
  - vm_compute. left. reflexivity.
  - right. left. reflexivity.
  - left. reflexivity.
Defined.

Lemma adjacentQuotes_tail c rest :
  adjacentQuotes (c :: rest) = false -> adjacentQuotes rest = false.
Proof. simpl. intros H. apply orb_false_elim in H as [_ H]. exact H. Qed.

Lemma pushRow_noQuote rs row :
  Forall (Forall (fun cell : jsstring => ~ In dquote cell)) rs ->
  Forall (fun cell : jsstring => ~ In dquote cell) row ->
  Forall (Forall (fun cell : jsstring => ~ In dquote cell)) (pushRow rs row).
Proof.
  intros Hrs Hrow. unfold pushRow. destruct (someNonEmpty row); [|exact Hrs].
  apply Forall_app. split; [exact Hrs | constructor; [exact Hrow | constructor]].
Qed.

Lemma snoc_noQuote row (s : jsstring) :
  Forall (fun cell : jsstring => ~ In dquote cell) row -> ~ In dquote s ->
  Forall (fun cell : jsstring => ~ In dquote cell) (row ++ [trim s]).
Proof.
  intros Hrow Hs. apply Forall_app. split; [exact Hrow|].
  constructor; [intros H; apply Hs, trim_incl, H | constructor].
Qed.

Lemma loop_noQuote : forall text st,
  adjacentQuotes text = false ->
  ~ In dquote (current st)
  /\ Forall (fun cell : jsstring => ~ In dquote cell) (currentRow st)
  /\ Forall (Forall (fun cell : jsstring => ~ In dquote cell)) (rows st) ->
  ~ In dquote (current (loop st text))
  /\ Forall (fun cell : jsstring => ~ In dquote cell) (currentRow (loop st text))
  /\ Forall (Forall (fun cell : jsstring => ~ In dquote cell))
       (rows (loop st text)).
Proof.
  refine (loop_induction _ _ _).
  - intros st _ H. exact H.
  - intros st c rest IH Hadj (Hcur & Hrow & Hrows). rewrite loop_cons.
    pose proof (adjacentQuotes_tail c rest Hadj) as Hrest.
    simpl in Hadj. apply orb_false_elim in Hadj as [Hpair _].
    unfold iteration, body in *.
    destruct (c =? dquote)%N eqn:Eq.
    + simpl in Hpair. rewrite Hpair, andb_false_r in *. simpl in *.
      apply IH; [exact Hrest | auto].
    + apply N.eqb_neq in Eq.
      destruct ((c =? comma)%N && negb (inQuotes st)).
      { simpl in *. apply IH; [exact Hrest|].
        split; [intros []|]. split; [apply snoc_noQuote; assumption | exact Hrows]. }
      destruct (((c =? nl)%N || (c =? cr)%N) && negb (inQuotes st)).
      { assert (Hst : ~ In dquote (current (endRow st))
                      /\ Forall (fun cell : jsstring => ~ In dquote cell)
                           (currentRow (endRow st))
                      /\ Forall (Forall (fun cell : jsstring => ~ In dquote cell))
                           (rows (endRow st))).
        { simpl. split; [intros []|]. split; [constructor|].
          apply pushRow_noQuote; [exact Hrows | apply snoc_noQuote; assumption]. }
        destruct ((c =? cr)%N && nextIs (head rest) nl); simpl in *.
        - apply IH; [|exact Hst].
          destruct rest as [|d rest']; [reflexivity|].
          apply (adjacentQuotes_tail d rest' Hrest).
        - apply IH; [exact Hrest | exact Hst]. }
      simpl in *. apply IH; [exact Hrest|].
      split; [|split; assumption].
      intros H. apply in_app_or in H as [H|[H|[]]]; [contradiction | congruence].
Qed.

(** X3.  A quote reaches a field of the table only through a doubled
    quote: when no two quotes stand side by side in the text, no field of
    the table holds a quote. *)
Theorem table_quotes_need_doubled_quotes :
  forall text row cell,
    adjacentQuotes text = false ->
    In row (parseCSV text) -> In cell row -> ~ In dquote cell.
Proof.
  intros text row cell Hadj Hrow Hcell.
  destruct (loop_noQuote text init Hadj) as (Hcur & Hcr & Hrows).
  { simpl. split; [intros []|]. split; constructor. }
  assert (Hall : Forall (Forall (fun cell : jsstring => ~ In dquote cell))
                   (parseCSV text)).
  { unfold parseCSV. rewrite finish_pushRow.
    apply pushRow_noQuote; [exact Hrows | apply snoc_noQuote; assumption]. }
  rewrite List.Forall_forall in Hall. specialize (Hall row Hrow).
  rewrite List.Forall_forall in Hall. apply (Hall cell Hcell).
Qed.

Lemma table_quotes_need_doubled_quotes_witness :
  ~ In dquote (js "b,c").
Proof.
  apply (table_quotes_need_doubled_quotes
           (js "a," ++ [dquote] ++ js "b,c" ++ [dquote] ++ js " ")
           [js "a"; js "b,c"] (js "b,c")).
  - reflexivity.
  - vm_compute. left. reflexivity.
  - right. left. reflexivity.
Defined.

Lemma pushRow_app rs rs' row : pushRow (rs ++ rs') row = rs ++ pushRow rs' row.
Proof. unfold pushRow. destruct (someNonEmpty row); [symmetry; apply app_assoc | reflexivity]. Qed.

Lemma body_addRows rs st c n :
  body (addRows rs st) c n
  = (addRows rs (fst (body st c n)), snd (body st c n)).
Proof.
  unfold body, addRows. simpl.
  destruct (c =? dquote)%N.
  { destruct (inQuotes st && nextIs n dquote); reflexivity. }
  destruct ((c =? comma)%N && negb (inQuotes st)); [reflexivity|].
  destruct (((c =? nl)%N || (c =? cr)%N) && negb (inQuotes st)); [|reflexivity].
  simpl. unfold endRow. simpl. rewrite pushRow_app. reflexivity.
Qed.

(** Rows pushed before the loop starts stay in front. *)
Lemma loop_addRows rs : forall text st,
  loop (addRows rs st) text = addRows rs (loop st text).
Proof.
  refine (loop_induction _ _ _).
  - reflexivity.
  - intros st c rest IH. rewrite !loop_cons. unfold iteration in *.
    rewrite body_addRows.
    destruct (body st c (head rest)) as [st' skip]. simpl in *. apply IH.
Qed.

Lemma finish_addRows rs st : finish (addRows rs st) = rs ++ finish st.
Proof.
  unfold finish, addRows. simpl.
  destruct (truthy (current st) || (0 <? length (currentRow st)));
    [apply pushRow_app | reflexivity].
Qed.

Lemma endRow_idem st : endRow (endRow st) = endRow st.
Proof. unfold endRow. simpl. reflexivity. Qed.

Lemma loop_nl st rest :
  inQuotes st = false -> loop st (nl :: rest) = loop (endRow st) rest.
Proof.
  intros Hq. rewrite loop_cons. unfold iteration, body. simpl.
  rewrite Hq. reflexivity.
Qed.

(** A newline read outside quotes after [a] ends the row that [a] left
    open, whatever follows. *)
Lemma loop_app_nl b : forall a st,
  inQuotes (loop st a) = false ->
  loop st (a ++ nl :: b) = loop (endRow (loop st a)) b.
Proof.
  refine (loop_induction _ _ _).
  - intros st Hq. simpl in Hq. apply loop_nl, Hq.
  - intros st c rest IH Hq. rewrite loop_cons in Hq.
    simpl app. rewrite !loop_cons.
    destruct rest as [|d rest'].
    + (* the last code unit of [a] *)
      unfold iteration in *. simpl in *. unfold body in *.
      destruct (c =? dquote)%N.
      { replace (nextIs (Some nl) dquote) with false by reflexivity.
        replace (nextIs None dquote) with false in IH, Hq |- * by reflexivity.
        rewrite andb_false_r in *. simpl in *. apply IH, Hq. }
      destruct ((c =? comma)%N && negb (inQuotes st));
        [simpl in *; apply IH, Hq|].
      destruct (((c =? nl)%N || (c =? cr)%N) && negb (inQuotes st));
        [|simpl in *; apply IH, Hq].
      simpl in *. destruct (c =? cr)%N; simpl in *.
      * rewrite endRow_idem. reflexivity.
      * apply IH, Hq.
    + unfold iteration in *. simpl in *.
      destruct (body st c (Some d)) as [st' [|]]; simpl in *; apply IH, Hq.
Qed.

Lemma iteration_flag st c rest :
  xorb (inQuotes (fst (iteration st c rest)))
       (oddQuotes (snd (iteration st c rest)))
  = xorb (inQuotes st) (oddQuotes (c :: rest)).
Proof.
  unfold iteration, body. cbn [oddQuotes].
  destruct (c =? dquote)%N eqn:Eq.
  - destruct (inQuotes st) eqn:Hq; destruct rest as [|d rest']; cbn;
      rewrite ?Hq; try reflexivity.
    destruct (d =? dquote)%N eqn:Ed; cbn; rewrite ?Hq, ?Ed;
      destruct (oddQuotes rest'); reflexivity.
  - destruct ((c =? comma)%N && negb (inQuotes st)); [reflexivity|].
    destruct (((c =? nl)%N || (c =? cr)%N) && negb (inQuotes st));
      [|reflexivity].
    destruct (c =? cr)%N; [|reflexivity].
    destruct rest as [|d rest']; [reflexivity|]. cbn.
    destruct (d =? nl)%N eqn:Ed; cbn; [|reflexivity].
    apply N.eqb_eq in Ed. subst d. reflexivity.
Qed.

Lemma loop_flag : forall text st,
  inQuotes (loop st text) = xorb (inQuotes st) (oddQuotes text).
Proof.
  refine (loop_induction _ _ _).
  - intros st. simpl. rewrite xorb_false_r. reflexivity.
  - intros st c rest IH. rewrite loop_cons, IH. apply iteration_flag.
Qed.

(** A carriage return read outside quotes after [a] ends the row that [a]
    left open, and takes a newline that follows it along. *)
Lemma loop_app_cr b : forall a st,
  inQuotes (loop st a) = false ->
  loop st (a ++ cr :: b)
  = loop (endRow (loop st a)) (if nextIs (head b) nl then tail b else b).
Proof.
  refine (loop_induction _ _ _).
  - intros st Hq. simpl in Hq. simpl app. rewrite loop_cons.
    unfold iteration, body. simpl. rewrite Hq. reflexivity.
  - intros st c rest IH Hq. rewrite loop_cons in Hq.
    simpl app. rewrite !loop_cons.
    destruct rest as [|d rest'].
    + unfold iteration in *. simpl in *. unfold body in *.
      destruct (c =? dquote)%N.
      { replace (nextIs (Some cr) dquote) with false by reflexivity.
        replace (nextIs None dquote) with false in IH, Hq |- * by reflexivity.
        rewrite andb_false_r in *. simpl in *. apply IH, Hq. }
      destruct ((c =? comma)%N && negb (inQuotes st));
        [simpl in *; apply IH, Hq|].
      destruct (((c =? nl)%N || (c =? cr)%N) && negb (inQuotes st));
        [|simpl in *; apply IH, Hq].
      replace (nextIs (Some cr) nl) with false by reflexivity.
      replace (nextIs None nl) with false in IH, Hq |- * by reflexivity.
      rewrite andb_false_r in *. simpl in *. apply IH, Hq.
    + unfold iteration in *. simpl in *.
      destruct (body st c (Some d)) as [st' [|]]; simpl in *; apply IH, Hq.
Qed.

Lemma finish_after_rows a : forall b,
  inQuotes (loop init a) = false ->
  finish (loop (endRow (loop init a)) b) = parseCSV a ++ parseCSV b.
Proof.
  intros b Hq. unfold parseCSV.
  assert (E : endRow (loop init a) = addRows (finish (loop init a)) init).
  { unfold endRow, addRows. simpl. rewrite Hq, finish_pushRow, app_nil_r.
    reflexivity. }
  rewrite E, loop_addRows, finish_addRows. reflexivity.
Qed.

(** X4.  Texts compose: when the number of quotes of the text [a] is even,
    the table of [a], a line terminator and [b] is the table of [a]
    followed by the table of [b], the terminator being a newline, a
    carriage return with a newline, or a carriage return alone in front of
    a [b] that does not start with a newline. *)
Theorem table_of_joined_texts :
  forall a b,
    oddQuotes a = false ->
    parseCSV (a ++ nl :: b) = parseCSV a ++ parseCSV b
    /\ parseCSV (a ++ cr :: nl :: b) = parseCSV a ++ parseCSV b
    /\ (nextIs (head b) nl = false ->
        parseCSV (a ++ cr :: b) = parseCSV a ++ parseCSV b).
Proof.
  intros a b Hodd.
  assert (Hq : inQuotes (loop init a) = false)
    by (rewrite loop_flag, Hodd; reflexivity).
  split; [|split].
  - unfold parseCSV at 1. rewrite (loop_app_nl b a init Hq).
    apply finish_after_rows, Hq.
  - unfold parseCSV at 1. rewrite (loop_app_cr (nl :: b) a init Hq). simpl.
    apply finish_after_rows, Hq.
  - intros Hb. unfold parseCSV at 1. rewrite (loop_app_cr b a init Hq), Hb.
    apply finish_after_rows, Hq.
Qed.

Lemma table_of_joined_texts_witness :
  parseCSV ((js "a," ++ [dquote] ++ js "b" ++ [nl] ++ js "c" ++ [dquote])
            ++ cr :: js "d,e")
  = parseCSV (js "a," ++ [dquote] ++ js "b" ++ [nl] ++ js "c" ++ [dquote])
    ++ parseCSV (js "d,e").
Proof.
  apply (table_of_joined_texts
           (js "a," ++ [dquote] ++ js "b" ++ [nl] ++ js "c" ++ [dquote])
           (js "d,e")); reflexivity.
Defined.

End TableMore.

(** ** Texts without quotes *)

Section PlainTexts.

Import Simple Lexical LiveResponsesTable.

Lemma noQuote_splitOn d s :
  noQuote s = true -> Forall (fun f => noQuote f = true) (splitOn d s).
Proof.
  induction s as [|c s IH]; intros H.
  - repeat constructor.
  - apply noQuote_cons in H as [Hc Hs]. specialize (IH Hs). simpl.
    destruct (c =? d)%N; [constructor; [reflexivity | exact IH]|].
    destruct (splitOn d s) as [|h t]; simpl.
    + constructor; [|constructor]. unfold noQuote. simpl.
      apply N.eqb_neq in Hc. rewrite Hc. reflexivity.
    + inversion IH; subst. constructor; [|assumption].
      unfold noQuote in *. simpl. apply N.eqb_neq in Hc. rewrite Hc. assumption.
Qed.

Lemma fieldLoop_noQuote : forall line st,
  noQuote line = true -> fieldInsideQuote st = false ->
  finishFields (fieldLoop st line)
  = fields st
    ++ map (fun f => stripQuotes (trim f))
         (prefixHead (currentField st) (splitOn comma line)).
Proof.
  unfold finishFields.
  induction line as [|c line IH]; intros st Hq Hi.
  - simpl. rewrite app_nil_r. reflexivity.
  - apply noQuote_cons in Hq as [Hc Hq].
    unfold fieldLoop in *. simpl fold_left.
    rewrite IH; [|exact Hq|].
    + unfold fieldBody. apply N.eqb_neq in Hc. rewrite Hc, Hi. simpl.
      destruct (c =? comma)%N; simpl.
      * rewrite app_nil_r, <- app_assoc.
        rewrite prefixHead_nil by apply splitOn_nonempty. reflexivity.
      * rewrite prefixHead_consHead by apply splitOn_nonempty. reflexivity.
    + unfold fieldBody. apply N.eqb_neq in Hc. rewrite Hc, Hi.
      destruct (c =? comma)%N; simpl; reflexivity || exact Hi.
Qed.

(** On a line without quotes the record parser cuts at the commas and
    trims. *)
Lemma parseLine_noQuote line :
  noQuote line = true -> parseLine line = plainFields line.
Proof.
  intros Hq. unfold parseLine.
  change (fields ?s ++ [stripQuotes (trim (currentField ?s))])
    with (finishFields s).
  rewrite (fieldLoop_noQuote line fieldInit Hq eq_refl). simpl.
  rewrite prefixHead_nil by apply splitOn_nonempty.
  unfold plainFields. apply map_ext_in. intros f Hf.
  apply stripQuotes_noQuote, noQuote_trim.
  pose proof (noQuote_splitOn comma line Hq) as Hall.
  rewrite List.Forall_forall in Hall. apply Hall, Hf.
Qed.

Lemma accepts_plainLine : forall line ph,
  ph = Blank \/ ph = Bare ->
  noQuote line = true -> crLast line = true -> accepts ph line = true.
Proof.
  induction line as [|c line IH]; intros ph Hph Hq Hcr.
  - destruct Hph as [-> | ->]; reflexivity.
  - apply noQuote_cons in Hq as [Hc Hq].
    simpl in Hcr. apply andb_prop in Hcr as [Hlast Hcr].
    simpl. unfold step. apply N.eqb_neq in Hc. rewrite Hc.
    destruct (c =? cr)%N.
    + destruct line; [|discriminate].
      destruct Hph as [-> | ->]; reflexivity.
    + destruct (c =? comma)%N.
      * destruct Hph as [-> | ->]; apply IH; auto.
      * destruct Hph as [-> | ->]; [destruct (isWhiteSpace c)|];
          apply IH; auto.
Qed.

Lemma plainLines_accepted segments :
  forallb plainLine segments = true -> acceptsLines Blank segments = true.
Proof.
  intros H. destruct segments as [|l ls]; [reflexivity|].
  simpl in *. apply andb_prop in H as [Hl Hls].
  apply andb_prop in Hl as [Hq Hcr].
  rewrite (accepts_plainLine l Blank (or_introl eq_refl) Hq Hcr). simpl.
  apply forallb_forall. intros x Hx.
  rewrite forallb_forall in Hls. specialize (Hls x Hx).
  apply andb_prop in Hls as [Hxq Hxcr].
  apply (accepts_plainLine x Blank (or_introl eq_refl) Hxq Hxcr).
Qed.

(** X5.  On a text without quotes in which a carriage return stands at the
    end of a line only, the table parser is a plain splitter: the text is
    cut at the newlines, each line at the commas, each field is trimmed,
    and the rows without a non-empty field are dropped. *)
Theorem table_of_plain_text :
  forall text,
    forallb plainLine (splitOn nl text) = true ->
    CSVDataTable.parseCSV text
    = List.filter CSVDataTable.someNonEmpty
        (map plainFields (splitOn nl text)).
Proof.
  intros text H.
  rewrite (parseCSV_simple text (plainLines_accepted _ H)).
  f_equal. apply map_ext_in. intros l Hl.
  rewrite forallb_forall in H. specialize (H l Hl).
  apply andb_prop in H as [Hq _]. apply parseLine_noQuote, Hq.
Qed.

Lemma table_of_plain_text_witness :
  CSVDataTable.parseCSV
    (js "a , b" ++ [cr; nl] ++ js " , " ++ [cr; nl] ++ js "c")
  = List.filter CSVDataTable.someNonEmpty
      (map plainFields
         (splitOn nl (js "a , b" ++ [cr; nl] ++ js " , " ++ [cr; nl] ++ js "c"))).
Proof.
  apply table_of_plain_text. vm_compute. reflexivity.
Defined.

Lemma lineLoop_noQuote : forall text st,
  noQuote text = true -> insideQuote st = false ->
  pushLine (lines (lineLoop st text)) (currentLine (lineLoop st text))
  = fold_left pushLine (prefixHead (currentLine st) (splitOn nl text)) (lines st).
Proof.
  induction text as [|c text IH]; intros st Hq Hi.
  - simpl. rewrite app_nil_r. reflexivity.
  - apply noQuote_cons in Hq as [Hc Hq].
    unfold lineLoop in *. simpl fold_left.
    rewrite IH; [|exact Hq|].
    + unfold lineBody. apply N.eqb_neq in Hc. rewrite Hc, Hi. simpl.
      destruct (c =? nl)%N; simpl.
      * rewrite app_nil_r.
        rewrite prefixHead_nil by apply splitOn_nonempty. reflexivity.
      * rewrite prefixHead_consHead by apply splitOn_nonempty. reflexivity.
    + unfold lineBody. apply N.eqb_neq in Hc. rewrite Hc, Hi.
      destruct (c =? nl)%N; simpl; reflexivity || exact Hi.
Qed.

Lemma splitLines_noQuote text :
  noQuote text = true ->
  splitLines text
  = map trim (List.filter (fun l => truthy (trim l)) (splitOn nl text)).
Proof.
  intros Hq. unfold splitLines.
  rewrite (lineLoop_noQuote text lineInit Hq eq_refl). simpl.
  rewrite prefixHead_nil by apply splitOn_nonempty.
  apply fold_pushLine.
Qed.

(** X6.  On a text without quotes the record parser is a plain splitter
    too: the text is cut at the newlines, the blank lines are dropped, and
    each line left is cut at the commas into trimmed fields; the first of
    these lines gives the headers of the records. *)
Theorem records_of_plain_text :
  forall text,
    noQuote text = true ->
    parsedLines text
    = map plainFields
        (List.filter (fun l => truthy (trim l)) (splitOn nl text))
    /\ LiveResponsesTable.parseCSV text
       = recordsOfTable
           (map plainFields
              (List.filter (fun l => truthy (trim l)) (splitOn nl text))).
Proof.
  intros text Hq.
  assert (E : parsedLines text
              = map plainFields
                  (List.filter (fun l => truthy (trim l)) (splitOn nl text))).
  { unfold parsedLines. rewrite (splitLines_noQuote text Hq), map_map.
    apply map_ext_in. intros l Hl. rewrite parseLine_trim.
    apply parseLine_noQuote. apply filter_In in Hl as [Hl _].
    pose proof (noQuote_splitOn nl text Hq) as Hall.
    rewrite List.Forall_forall in Hall. apply Hall, Hl. }
  split; [exact E|]. rewrite parseCSV_records, E. reflexivity.
Qed.

Lemma records_of_plain_text_witness :
  parsedLines (js "h, k" ++ [nl; nl] ++ js " , " ++ [nl] ++ js "x")
  = map plainFields
      (List.filter (fun l => truthy (trim l))
         (splitOn nl (js "h, k" ++ [nl; nl] ++ js " , " ++ [nl] ++ js "x")))
  /\ LiveResponsesTable.parseCSV
       (js "h, k" ++ [nl; nl] ++ js " , " ++ [nl] ++ js "x")
     = recordsOfTable
         (map plainFields
            (List.filter (fun l => truthy (trim l))
               (splitOn nl (js "h, k" ++ [nl; nl] ++ js " , " ++ [nl] ++ js "x")))).
Proof.
  apply records_of_plain_text. reflexivity.
Defined.

End PlainTexts.

(** ** More on the record parser *)

Section RecordMore.

Import Simple Lexical LiveResponsesTable.

Lemma fieldLoop_app st a b :
  fieldLoop st (a ++ b) = fieldLoop (fieldLoop st a) b.
Proof. unfold fieldLoop. apply fold_left_app. Qed.

Lemma fieldLoop_flag : forall line st,
  fieldInsideQuote (fieldLoop st line)
  = xorb (fieldInsideQuote st) (oddQuotes line).
Proof.
  unfold fieldLoop. induction line as [|c line IH]; intros st.
  - simpl. rewrite xorb_false_r. reflexivity.
  - simpl. rewrite IH. unfold fieldBody.
    destruct (c =? dquote)%N; simpl.
    + destruct (fieldInsideQuote st), (oddQuotes line); reflexivity.
    + destruct ((c =? comma)%N && negb (fieldInsideQuote st)); reflexivity.
Qed.

Lemma fieldBody_front front fs field q c :
  fieldBody {| fields := front ++ fs; currentField := field;
               fieldInsideQuote := q |} c
  = {| fields :=
         front ++ fields (fieldBody {| fields := fs; currentField := field;
                                       fieldInsideQuote := q |} c);
       currentField :=
         currentField (fieldBody {| fields := fs; currentField := field;
                                    fieldInsideQuote := q |} c);
       fieldInsideQuote :=
         fieldInsideQuote (fieldBody {| fields := fs; currentField := field;
                                        fieldInsideQuote := q |} c) |}.
Proof.
  unfold fieldBody. simpl.
  destruct (c =? dquote)%N; [reflexivity|].
  destruct ((c =? comma)%N && negb q); [|reflexivity].
  simpl. rewrite <- app_assoc. reflexivity.
Qed.

(** Fields pushed before the field loop starts stay in front. *)
Lemma fieldLoop_front front : forall line fs field q,
  finishFields
    (fieldLoop {| fields := front ++ fs; currentField := field;
                  fieldInsideQuote := q |} line)
  = front
    ++ finishFields
         (fieldLoop {| fields := fs; currentField := field;
                       fieldInsideQuote := q |} line).
Proof.
  unfold fieldLoop. induction line as [|c line IH]; intros fs field q.
  - unfold finishFields. simpl. symmetry. apply app_assoc.
  - simpl fold_left. rewrite fieldBody_front.
    destruct (fieldBody {| fields := fs; currentField := field;
                           fieldInsideQuote := q |} c) as [fs' field' q'].
    simpl. apply IH.
Qed.

Lemma fieldLoop_inside : forall rest st,
  fieldInsideQuote st = true -> noQuote rest = true ->
  fieldLoop st rest
  = {| fields := fields st; currentField := currentField st ++ rest;
       fieldInsideQuote := true |}.
Proof.
  unfold fieldLoop. induction rest as [|c rest IH]; intros st Hq Hno.
  - simpl. rewrite app_nil_r. destruct st; simpl in *; subst; reflexivity.
  - apply noQuote_cons in Hno as [Hc Hno]. apply N.eqb_neq in Hc.
    simpl. rewrite IH.
    + unfold fieldBody. rewrite Hc, Hq, andb_false_r. simpl.
      rewrite <- app_assoc. reflexivity.
    + unfold fieldBody. rewrite Hc, Hq, andb_false_r. reflexivity.
    + exact Hno.
Qed.

Lemma parseLine_wrapped f :
  noQuote f = true ->
  parseLine (dquote :: f ++ [dquote])
  = [if noLineTerminator f then f else dquote :: f ++ [dquote]].
Proof.
  intros Hno. unfold parseLine.
  change (dquote :: f ++ [dquote]) with ([dquote] ++ f ++ [dquote]).
  rewrite !fieldLoop_app.
  change (fieldLoop fieldInit [dquote])
    with {| fields := []; currentField := [dquote]; fieldInsideQuote := true |}.
  rewrite (fieldLoop_inside f
             {| fields := []; currentField := [dquote];
                fieldInsideQuote := true |} eq_refl Hno).
  simpl.
  rewrite trim_wrapped.
  destruct (noLineTerminator f) eqn:E.
  - rewrite stripQuotes_wrapped by exact E. reflexivity.
  - unfold stripQuotes. rewrite rev_app_distr. simpl.
    unfold noLineTerminator in E. rewrite forallb_reverse, E. reflexivity.
Qed.

(** X7.  The record parser cuts a line at the commas outside quotes and
    reads a field wrapped in quotes back as what the quotes wrap.  When the
    number of quotes of [a] is even, the fields of [a], a comma and [b] are
    the fields of [a] followed by the fields of [b].  A line made of a
    quote, a text [f] without quotes and a quote, with whitespace only
    before and after, is the single field [f], its commas and its leading
    and trailing whitespace included; but when [f] holds a line terminator
    the two quotes stay around it. *)
Theorem quoted_field_read_back :
  (forall a b,
      oddQuotes a = false ->
      parseLine (a ++ comma :: b) = parseLine a ++ parseLine b)
  /\ (forall pre f post,
      forallb isWhiteSpace pre = true ->
      forallb isWhiteSpace post = true ->
      noQuote f = true ->
      parseLine (pre ++ dquote :: f ++ dquote :: post)
      = [if noLineTerminator f then f else dquote :: f ++ [dquote]]).
Proof.
  split.
  - intros a b Hodd.
    assert (Hq : fieldInsideQuote (fieldLoop fieldInit a) = false)
      by (rewrite fieldLoop_flag, Hodd; reflexivity).
    unfold parseLine at 1.
    change (fields ?s ++ [stripQuotes (trim (currentField ?s))])
      with (finishFields s).
    rewrite fieldLoop_app.
    change (fieldLoop (fieldLoop fieldInit a) (comma :: b))
      with (fieldLoop (fieldBody (fieldLoop fieldInit a) comma) b).
    unfold fieldBody at 1. simpl. rewrite Hq. simpl.
    change (fields (fieldLoop fieldInit a)
            ++ [stripQuotes (trim (currentField (fieldLoop fieldInit a)))])
      with (parseLine a).
    rewrite <- (app_nil_r (parseLine a)) at 1.
    apply (fieldLoop_front (parseLine a) b [] [] false).
  - intros pre f post Hpre Hpost Hno.
    rewrite parseLine_spaces_before by exact Hpre.
    change (dquote :: f ++ dquote :: post)
      with ((dquote :: f) ++ [dquote] ++ post).
    rewrite app_assoc.
    rewrite parseLine_spaces_after by exact Hpost.
    apply parseLine_wrapped, Hno.
Qed.

Lemma quoted_field_read_back_witness :
  parseLine (js "x, " ++ dquote :: js " a, b " ++ dquote :: js " ")
  = [js "x"; js " a, b "]
  /\ parseLine (dquote :: (js "a" ++ [cr] ++ js "b") ++ dquote :: [])
     = [dquote :: (js "a" ++ [cr] ++ js "b") ++ [dquote]].
Proof.
  split.
  - change (js "x, " ++ dquote :: js " a, b " ++ dquote :: js " ")
      with (js "x" ++ comma :: (js " " ++ dquote :: js " a, b " ++ dquote :: js " ")).
    rewrite (proj1 quoted_field_read_back (js "x")
               (js " " ++ dquote :: js " a, b " ++ dquote :: js " ") eq_refl).
    rewrite (proj2 quoted_field_read_back (js " ") (js " a, b ") (js " ")
               eq_refl eq_refl eq_refl).
    reflexivity.
  - apply (proj2 quoted_field_read_back [] (js "a" ++ [cr] ++ js "b") []);
      reflexivity.
Defined.

Lemma pushLine_kept ls line :
  Forall (fun l => trim l = l /\ l <> []) ls ->
  Forall (fun l => trim l = l /\ l <> []) (pushLine ls line).
Proof.
  intros H. unfold pushLine. destruct (truthy (trim line)) eqn:E; [|exact H].
  apply Forall_app. split; [exact H|]. constructor; [|constructor].
  split; [apply trim_idem | apply truthy_true, E].
Qed.

Lemma lineLoop_kept : forall text st,
  Forall (fun l => trim l = l /\ l <> []) (lines st) ->
  Forall (fun l => trim l = l /\ l <> []) (lines (lineLoop st text)).
Proof.
  unfold lineLoop. induction text as [|c text IH]; intros st H; [exact H|].
  simpl. apply IH. unfold lineBody.
  destruct (c =? dquote)%N; [exact H|].
  destruct ((c =? nl)%N && negb (insideQuote st)); [|exact H].
  simpl. apply pushLine_kept, H.
Qed.

(** X8.  Every line that the first loop of the record parser keeps is
    trimmed and not empty, and the records are one fewer than these lines:
    the first line is the header row, and a text of at most one such line
    gives no record. *)
Theorem records_one_per_data_line :
  forall csvText,
    (forall line, In line (splitLines csvText) -> trim line = line /\ line <> [])
    /\ length (parseCSV csvText) = length (splitLines csvText) - 1.
Proof.
  intros csvText. split.
  - intros line Hin.
    assert (H : Forall (fun l => trim l = l /\ l <> []) (splitLines csvText)).
    { unfold splitLines. apply pushLine_kept, lineLoop_kept. constructor. }
    rewrite List.Forall_forall in H. apply H, Hin.
  - rewrite parseCSV_records. unfold parsedLines.
    destruct (splitLines csvText) as [|l ls]; [reflexivity|].
    simpl. rewrite !length_map. lia.
Qed.

Lemma records_one_per_data_line_witness :
  (trim (js "x , y") = js "x , y" /\ js "x , y" <> [])
  /\ length (parseCSV (js " h,k " ++ [nl; nl] ++ js " x , y"))
     = length (splitLines (js " h,k " ++ [nl; nl] ++ js " x , y")) - 1.
Proof.
  split.
  - apply (proj1 (records_one_per_data_line
                    (js " h,k " ++ [nl; nl] ++ js " x , y"))).
    vm_compute. right. left. reflexivity.
  - apply (proj2 (records_one_per_data_line
                    (js " h,k " ++ [nl; nl] ++ js " x , y"))).
Defined.

Lemma forEachHeader_keys (headers : list jsstring) :
  forall index row (obj : gmap jsstring jsstring) key,
    is_Some (forEachHeader headers index row obj !! key)
    <-> (In key headers /\ key <> proto) \/ is_Some (obj !! key).
Proof.
  induction headers as [|h hs IH]; intros index row obj key; simpl.
  - split; [intros H; right; exact H | intros [[[] _]|H]; exact H].
  - rewrite IH. unfold setProperty.
    destruct (decide (h = proto)) as [->|Hp].
    + split.
      * intros [[Hin Hk]|H]; [left; split; [right; exact Hin | exact Hk] | right; exact H].
      * intros [[[E|Hin] Hk]|H]; [congruence | left; split; assumption | right; exact H].
    + destruct (decide (key = h)) as [->|Hk].
      * rewrite lookup_insert_eq. split.
        -- intros _. left. split; [left; reflexivity | exact Hp].
        -- intros _. right. eexists. reflexivity.
      * rewrite lookup_insert_ne by congruence. split.
        -- intros [[Hin Hkp]|H]; [left; split; [right; exact Hin | exact Hkp] | right; exact H].
        -- intros [[[E|Hin] Hkp]|H]; [congruence | left; split; assumption | right; exact H].
Qed.

(** X9.  All the records of a text have the same property names: the
    headers, whatever the length of each data row, but for the header
    [__proto__], which never becomes a property. *)
Theorem records_have_header_keys :
  forall csvText record key,
    In record (parseCSV csvText) ->
    (is_Some (record !! key)
     <-> In key (hd [] (parsedLines csvText)) /\ key <> proto).
Proof.
  intros csvText record key Hin.
  rewrite parseCSV_records in Hin. unfold recordsOfTable in Hin.
  destruct (parsedLines csvText) as [|headers dataRows]; [destruct Hin|].
  apply in_map_iff in Hin as [row [<- _]]. simpl.
  unfold rowObject. rewrite forEachHeader_keys. split.
  - intros [H|H]; [exact H|]. rewrite lookup_empty in H. destruct H; discriminate.
  - intros H. left. exact H.
Qed.

Lemma records_have_header_keys_witness :
  is_Some (({[ js "a" := js "x"; js "b" := [] ]} : gmap jsstring jsstring)
           !! js "b")
  <-> In (js "b")
        (hd [] (parsedLines (js "a,b,__proto__" ++ [nl] ++ js "x")))
      /\ js "b" <> proto.
Proof.
  apply (records_have_header_keys (js "a,b,__proto__" ++ [nl] ++ js "x")).
  vm_compute. left. reflexivity.
Defined.

Lemma forEachHeader_ext (headers : list jsstring) :
  forall index row row' (obj : gmap jsstring jsstring),
    (forall i, index <= i < index + length headers ->
               cellOrEmpty row i = cellOrEmpty row' i) ->
    forEachHeader headers index row obj = forEachHeader headers index row' obj.
Proof.
  induction headers as [|h hs IH]; intros index row row' obj H; [reflexivity|].
  simpl in *. rewrite (H index) by lia. apply IH.
  intros i Hi. apply H. lia.
Qed.

(** X10.  A record keeps of its data row the fields under a header only:
    the fields past the last header are ignored, and an empty field added
    at the end of the row changes nothing. *)
Theorem record_ignores_fields_past_headers :
  forall headers row,
    rowObject headers row = rowObject headers (take (length headers) row)
    /\ rowObject headers (row ++ [[]]) = rowObject headers row.
Proof.
  intros headers row. unfold rowObject. split.
  - apply forEachHeader_ext. intros i Hi. unfold cellOrEmpty.
    rewrite lookup_take_lt by lia. reflexivity.
  - apply forEachHeader_ext. intros i _. unfold cellOrEmpty.
    destruct (decide (i < length row)) as [Hlt|Hge].
    + rewrite lookup_app_l by exact Hlt. reflexivity.
    + rewrite lookup_app_r by lia.
      rewrite (lookup_ge_None_2 row i) by lia.
      destruct (i - length row) as [|[|k]]; reflexivity.
Qed.

Lemma lineLoop_app st a b : lineLoop st (a ++ b) = lineLoop (lineLoop st a) b.
Proof. unfold lineLoop. apply fold_left_app. Qed.

Lemma lineLoop_inside : forall rest st,
  insideQuote st = true -> ~ In dquote rest ->
  lineLoop st rest
  = {| lines := lines st; currentLine := currentLine st ++ rest;
       insideQuote := true |}.
Proof.
  unfold lineLoop. induction rest as [|c rest IH]; intros st Hq Hno.
  - simpl. rewrite app_nil_r. destruct st; simpl in *; subst; reflexivity.
  - simpl. assert (Hc : (c =? dquote)%N = false).
    { apply N.eqb_neq. intros ->. apply Hno. left. reflexivity. }
    rewrite IH.
    + unfold lineBody. rewrite Hc, Hq, andb_false_r. simpl.
      rewrite <- app_assoc. reflexivity.
    + unfold lineBody. rewrite Hc, Hq, andb_false_r. reflexivity.
    + intros H. apply Hno. right. exact H.
Qed.

Lemma trimStart_before_quote cur b :
  trimStart (cur ++ dquote :: b) = trimStart cur ++ dquote :: b.
Proof.
  induction cur as [|c cur IH]; simpl; [reflexivity|].
  destruct (isWhiteSpace c); [exact IH | reflexivity].
Qed.

Lemma trimEnd_after_quote b : forall s,
  trimEnd (s ++ dquote :: b) = s ++ dquote :: trimEnd b.
Proof.
  induction s as [|c s IH]; simpl app.
  - apply trimEnd_cons_nonspace. reflexivity.
  - simpl trimEnd. rewrite IH. destruct s; reflexivity.
Qed.

(** Trimming a string with a quote in it trims what stands before the
    quote at its start and what stands after the quote at its end. *)
Lemma trim_around_quote cur b :
  trim (cur ++ dquote :: b) = trimStart cur ++ dquote :: trimEnd b.
Proof.
  unfold trim. rewrite trimStart_before_quote. apply trimEnd_after_quote.
Qed.

(** X11.  In the record parser a quote without a partner swallows the rest
    of the text: when the text [a] ends outside quotes and no quote occurs
    in [b], the text made of [a], a quote and [b] gives the lines that [a]
    completed and exactly one more line.  That line is the unfinished line
    of [a] without its leading whitespace, the quote, and [b] without its
    trailing whitespace: the newlines of [b] stay inside the line, all but
    those that the final trim takes from its end. *)
Theorem unmatched_quote_swallows_lines :
  forall a b,
    insideQuote (lineLoop lineInit a) = false ->
    ~ In dquote b ->
    splitLines (a ++ dquote :: b)
    = lines (lineLoop lineInit a)
      ++ [trimStart (currentLine (lineLoop lineInit a))
          ++ dquote :: trimEnd b].
Proof.
  intros a b Hq Hno. unfold splitLines.
  rewrite lineLoop_app.
  change (lineLoop (lineLoop lineInit a) (dquote :: b))
    with (lineLoop (lineBody (lineLoop lineInit a) dquote) b).
  rewrite lineLoop_inside; [|unfold lineBody; simpl; rewrite Hq; reflexivity
                            |exact Hno].
  unfold lineBody. simpl. rewrite <- app_assoc. simpl.
  unfold pushLine. rewrite trim_around_quote.
  destruct (trimStart (currentLine (lineLoop lineInit a))); reflexivity.
Qed.

Lemma unmatched_quote_swallows_lines_witness :
  splitLines (js "h" ++ [nl] ++ js " x," ++ dquote
              :: (js "y" ++ [nl] ++ js "z" ++ [nl; nl]))
  = [js "h"; js "x," ++ dquote :: (js "y" ++ [nl] ++ js "z")].
Proof.
  change (js "h" ++ [nl] ++ js " x," ++ dquote
          :: (js "y" ++ [nl] ++ js "z" ++ [nl; nl]))
    with ((js "h" ++ [nl] ++ js " x,") ++ dquote
          :: (js "y" ++ [nl] ++ js "z" ++ [nl; nl])).
  rewrite (unmatched_quote_swallows_lines (js "h" ++ [nl] ++ js " x,")
             (js "y" ++ [nl] ++ js "z" ++ [nl; nl])).
  - reflexivity.
  - reflexivity.
  - vm_compute. intuition discriminate.
Defined.

End RecordMore.

(** ** The quote flag of the two parsers *)

Section QuoteFlag.

Import CSVDataTable LiveResponsesTable Lexical.

Lemma lineLoop_flag : forall text st,
  insideQuote (lineLoop st text) = xorb (insideQuote st) (oddQuotes text).
Proof.
  unfold lineLoop. induction text as [|c text IH]; intros st.
  - simpl. rewrite xorb_false_r. reflexivity.
  - simpl. rewrite IH. unfold lineBody.
    destruct (c =? dquote)%N; simpl.
    + destruct (insideQuote st), (oddQuotes text); reflexivity.
    + destruct ((c =? nl)%N && negb (insideQuote st)); reflexivity.
Qed.

(** X16.  The two parsers keep the same quote flag: after any text, each
    stands inside a quoted field exactly when the number of quotes of the
    text is odd, the doubled quotes that the table parser skips
    included. *)
Theorem quote_flag_is_parity :
  forall text,
    inQuotes (loop init text) = oddQuotes text
    /\ insideQuote (lineLoop lineInit text) = oddQuotes text.
Proof.
  intros text. split; [rewrite loop_flag | rewrite lineLoop_flag]; reflexivity.
Qed.

Lemma lineBody_nl_finish st :
  pushLine (lines (lineBody st nl)) (currentLine (lineBody st nl))
  = pushLine (lines st) (currentLine st).
Proof.
  unfold lineBody. simpl. destruct (insideQuote st); simpl.
  - unfold pushLine. rewrite trim_snoc_space by reflexivity. reflexivity.
  - reflexivity.
Qed.

(** X17.  A newline at the end of the text changes nothing for the record
    parser, inside quotes or not: the lines, and so the records, are the
    same. *)
Theorem records_ignore_final_newline :
  forall csvText,
    splitLines (csvText ++ [nl]) = splitLines csvText
    /\ LiveResponsesTable.parseCSV (csvText ++ [nl])
       = LiveResponsesTable.parseCSV csvText.
Proof.
  intros csvText.
  assert (E : splitLines (csvText ++ [nl]) = splitLines csvText).
  { unfold splitLines, lineLoop. rewrite fold_left_app. simpl.
    apply lineBody_nl_finish. }
  split; [exact E|].
  rewrite !parseCSV_records. unfold parsedLines. rewrite E. reflexivity.
Qed.

End QuoteFlag.

(** ** Line terminators in the two parsers *)

Section LineTerminators.

Import Simple Lexical CSVDataTable LiveResponsesTable.

(** A newline read inside quotes after [a] goes to the current field,
    whatever follows. *)
Lemma loop_app_nl_inside b : forall a st,
  inQuotes (loop st a) = true ->
  loop st (a ++ nl :: b) = loop (appendChar (loop st a) nl) b.
Proof.
  refine (loop_induction _ _ _).
  - intros st Hq. simpl in Hq. simpl app. rewrite loop_cons.
    unfold iteration, body. simpl. rewrite Hq. reflexivity.
  - intros st c rest IH Hq. rewrite loop_cons in Hq.
    simpl app. rewrite !loop_cons.
    destruct rest as [|d rest'].
    + unfold iteration in *. simpl in *. unfold body in *.
      destruct (c =? dquote)%N.
      { replace (nextIs (Some nl) dquote) with false by reflexivity.
        replace (nextIs None dquote) with false in IH, Hq |- * by reflexivity.
        rewrite andb_false_r in *. simpl in *. apply IH, Hq. }
      destruct ((c =? comma)%N && negb (inQuotes st));
        [simpl in *; apply IH, Hq|].
      destruct (((c =? nl)%N || (c =? cr)%N) && negb (inQuotes st)) eqn:E;
        [|simpl in *; apply IH, Hq].
      exfalso. apply andb_prop in E as [_ E]. apply negb_true_iff in E.
      destruct ((c =? cr)%N && nextIs None nl); simpl in Hq; congruence.
    + unfold iteration in *. simpl in *.
      destruct (body st c (Some d)) as [st' [|]]; simpl in *; apply IH, Hq.
Qed.

Lemma pushLine_app (front ls : list jsstring) line :
  pushLine (front ++ ls) line = front ++ pushLine ls line.
Proof.
  unfold pushLine. destruct (truthy (trim line));
    [symmetry; apply app_assoc | reflexivity].
Qed.

Lemma lineBody_front front ls line q c :
  lineBody {| lines := front ++ ls; currentLine := line; insideQuote := q |} c
  = {| lines :=
         front ++ lines (lineBody {| lines := ls; currentLine := line;
                                     insideQuote := q |} c);
       currentLine :=
         currentLine (lineBody {| lines := ls; currentLine := line;
                                  insideQuote := q |} c);
       insideQuote :=
         insideQuote (lineBody {| lines := ls; currentLine := line;
                                  insideQuote := q |} c) |}.
Proof.
  unfold lineBody. simpl.
  destruct (c =? dquote)%N; [reflexivity|].
  destruct ((c =? nl)%N && negb q); [|reflexivity].
  simpl. rewrite pushLine_app. reflexivity.
Qed.

(** Lines pushed before the line loop starts stay in front. *)
Lemma lineLoop_front front : forall text ls line q,
  lineLoop {| lines := front ++ ls; currentLine := line; insideQuote := q |} text
  = {| lines :=
         front ++ lines (lineLoop {| lines := ls; currentLine := line;
                                     insideQuote := q |} text);
       currentLine :=
         currentLine (lineLoop {| lines := ls; currentLine := line;
                                  insideQuote := q |} text);
       insideQuote :=
         insideQuote (lineLoop {| lines := ls; currentLine := line;
                                  insideQuote := q |} text) |}.
Proof.
  unfold lineLoop. induction text as [|c text IH]; intros ls line q.
  - reflexivity.
  - simpl fold_left. rewrite lineBody_front.
    destruct (lineBody {| lines := ls; currentLine := line; insideQuote := q |} c)
      as [ls' line' q'].
    simpl. apply IH.
Qed.

Lemma splitLines_joined a b :
  insideQuote (lineLoop lineInit a) = false ->
  splitLines (a ++ nl :: b) = splitLines a ++ splitLines b.
Proof.
  intros Hq. unfold splitLines at 1. rewrite lineLoop_app.
  change (lineLoop (lineLoop lineInit a) (nl :: b))
    with (lineLoop (lineBody (lineLoop lineInit a) nl) b).
  unfold lineBody at 1 2. simpl. rewrite Hq. simpl.
  fold (splitLines a).
  rewrite <- (app_nil_r (splitLines a)) at 1 2.
  rewrite (lineLoop_front (splitLines a) b [] [] false). simpl.
  rewrite pushLine_app. reflexivity.
Qed.

Lemma splitLines_snoc_cr a : splitLines (a ++ [cr]) = splitLines a.
Proof.
  unfold splitLines. rewrite lineLoop_app.
  change (lineLoop (lineLoop lineInit a) [cr])
    with (lineBody (lineLoop lineInit a) cr).
  unfold lineBody. simpl. apply pushLine_snoc_cr.
Qed.

(** A line in which a carriage return stands last only either has none or
    ends with the only one. *)
Lemma crLast_cases s :
  crLast s = true ->
  ~ In cr s \/ exists s', s = s' ++ [cr] /\ ~ In cr s'.
Proof.
  induction s as [|c s IH]; intros H.
  - left. intros [].
  - simpl in H. apply andb_prop in H as [Hc Hs].
    destruct (c =? cr)%N eqn:E.
    + apply N.eqb_eq in E. subst c. destruct s; [|discriminate].
      right. exists []. split; [reflexivity | intros []].
    + apply N.eqb_neq in E. destruct (IH Hs) as [Hno | [s' [-> Hno]]].
      * left. intros [Hin | Hin]; [congruence | exact (Hno Hin)].
      * right. exists (c :: s'). split; [reflexivity|].
        intros [Hin | Hin]; [congruence | exact (Hno Hin)].
Qed.

Lemma crLast_trim s : crLast s = true -> ~ In cr (trim s).
Proof.
  intros H Hin. destruct (crLast_cases s H) as [Hno | [s' [-> Hno]]].
  - apply Hno, trim_incl, Hin.
  - rewrite trim_snoc_space in Hin by reflexivity.
    apply Hno, trim_incl, Hin.
Qed.

Lemma crLast_splitOn d s :
  crLast s = true -> Forall (fun seg => crLast seg = true) (splitOn d s).
Proof.
  induction s as [|c s IH]; intros H.
  - repeat constructor.
  - simpl in H. apply andb_prop in H as [Hc Hs]. specialize (IH Hs). simpl.
    destruct (c =? d)%N; [constructor; [reflexivity | exact IH]|].
    destruct (splitOn d s) as [|first others] eqn:E; simpl.
    + exfalso. exact (splitOn_nonempty d s E).
    + inversion IH as [|? ? Hfirst Hothers]; subst.
      constructor; [|exact Hothers]. simpl. rewrite Hfirst, andb_true_r.
      destruct (c =? cr)%N; [|reflexivity].
      destruct s; [|discriminate]. simpl in E. injection E as <- <-.
      reflexivity.
Qed.

(** The segments of a split hold code units of the string only, and not
    the separator. *)
Lemma splitOn_incl d c : forall s seg,
  In seg (splitOn d s) -> In c seg -> In c s.
Proof.
  induction s as [|e s IH]; intros seg Hseg Hc.
  - simpl in Hseg. destruct Hseg as [<- | []]. exact Hc.
  - simpl in Hseg. destruct (e =? d)%N.
    + destruct Hseg as [<- | Hseg]; [destruct Hc|].
      right. apply (IH seg Hseg Hc).
    + destruct (splitOn d s) as [|first others] eqn:E; simpl in Hseg.
      * destruct Hseg as [<- | []]. destruct Hc as [<- | []]. left. reflexivity.
      * destruct Hseg as [<- | Hseg].
        -- destruct Hc as [<- | Hc]; [left; reflexivity|].
           right. apply (IH first); [left; reflexivity | exact Hc].
        -- right. apply (IH seg); [right; exact Hseg | exact Hc].
Qed.

Lemma splitOn_no_separator d : forall s seg,
  In seg (splitOn d s) -> ~ In d seg.
Proof.
  induction s as [|e s IH]; intros seg Hseg Hd.
  - simpl in Hseg. destruct Hseg as [<- | []]. destruct Hd.
  - simpl in Hseg. destruct (e =? d)%N eqn:Ee.
    + destruct Hseg as [<- | Hseg]; [destruct Hd|].
      apply (IH seg Hseg Hd).
    + apply N.eqb_neq in Ee.
      destruct (splitOn d s) as [|first others] eqn:E; simpl in Hseg.
      * destruct Hseg as [<- | []]. destruct Hd as [Hd | []]. congruence.
      * destruct Hseg as [<- | Hseg].
        -- destruct Hd as [Hd | Hd]; [congruence|].
           apply (IH first); [left; reflexivity | exact Hd].
        -- apply (IH seg); [right; exact Hseg | exact Hd].
Qed.

(** On a text without quotes the lines of the record parser are cut at
    the commas into trimmed fields. *)
Lemma parsedLines_noQuote text :
  noQuote text = true ->
  parsedLines text
  = map plainFields (List.filter (fun l => truthy (trim l)) (splitOn nl text)).
Proof.
  intros Hq. unfold parsedLines. rewrite (splitLines_noQuote text Hq), map_map.
  apply map_ext_in. intros l Hl. rewrite parseLine_trim.
  apply parseLine_noQuote. apply filter_In in Hl as [Hl _].
  pose proof (noQuote_splitOn nl text Hq) as Hall.
  rewrite List.Forall_forall in Hall. apply Hall, Hl.
Qed.

Lemma parsedLines_noTerminator text row cell :
  noQuote text = true ->
  forallb crLast (splitOn nl text) = true ->
  In row (parsedLines text) -> In cell row ->
  ~ In cr cell /\ ~ In nl cell.
Proof.
  intros Hq Hcr Hrow Hcell.
  rewrite (parsedLines_noQuote text Hq) in Hrow.
  apply in_map_iff in Hrow as [l [<- Hl]].
  apply filter_In in Hl as [Hl _].
  unfold plainFields in Hcell.
  apply in_map_iff in Hcell as [seg [<- Hseg]].
  rewrite forallb_forall in Hcr. specialize (Hcr l Hl).
  split.
  - apply crLast_trim.
    pose proof (crLast_splitOn comma l Hcr) as Hall.
    rewrite List.Forall_forall in Hall. apply Hall, Hseg.
  - intros Hin. apply (splitOn_no_separator nl text l Hl).
    apply (splitOn_incl comma nl l seg Hseg). apply trim_incl, Hin.
Qed.

(** C2.  In the table parser one pass of the loop at a newline outside a
    quoted field ends the current row: the trimmed current field is its
    last field, the row is pushed when it has a non-empty field, the
    current field and row start empty, and the loop goes on behind the
    newline.  One pass at a carriage return immediately followed by a
    newline does the same and goes on behind the newline: the two are
    consumed together, and the state is the state after a lone newline.
    Inside a quoted field the pass at a newline appends it to the current
    field and ends nothing.  The same holds for every loop head reached
    while parsing a text.  For the returned table: when the parser
    stands outside a quoted field after the text [a], the table of [a], a
    newline or a carriage return with a newline, and [b] is the table of
    [a] followed by the table of [b], with no row in between; when it
    stands inside a quoted field, the newline is read into the open field
    and the parser goes on from there; and when the text has no quote at
    all, no field of the table holds a carriage return or a newline.

    The line loop of the record parser does the same: outside quotes a
    newline, alone or after a carriage return, pushes the trimmed line
    once when it is not blank, and inside quotes it is appended to the
    line.  For the returned lines: when the line loop stands outside
    quotes after [a], the lines of [a], a newline or a carriage return
    with a newline, and [b] are the lines of [a] followed by the lines of
    [b]; when it stands inside quotes, the newline is read into the open
    line; a text without quotes is cut at its newlines into the trimmed
    lines that are not blank; and when in such a text every carriage return
    ends a line, no field of any line holds a carriage return or a
    newline. *)
Theorem line_terminator_ends_row :
  (forall st rest,
      inQuotes st = false ->
      iteration st nl rest
      = ({| rows := pushRow (rows st) (currentRow st ++ [trim (current st)]);
            current := []; inQuotes := false; currentRow := [] |}, rest)
      /\ iteration st cr (nl :: rest)
         = ({| rows := pushRow (rows st) (currentRow st ++ [trim (current st)]);
               current := []; inQuotes := false; currentRow := [] |}, rest))
  /\ (forall st rest,
      inQuotes st = true ->
      iteration st nl rest
      = ({| rows := rows st; current := current st ++ [nl];
            inQuotes := true; currentRow := currentRow st |}, rest))
  /\ (forall text st rest,
      atLoopHead text st (nl :: rest) -> inQuotes st = false ->
      atLoopHead text
        {| rows := pushRow (rows st) (currentRow st ++ [trim (current st)]);
           current := []; inQuotes := false; currentRow := [] |}
        rest)
  /\ (forall text st rest,
      atLoopHead text st (cr :: nl :: rest) -> inQuotes st = false ->
      atLoopHead text
        {| rows := pushRow (rows st) (currentRow st ++ [trim (current st)]);
           current := []; inQuotes := false; currentRow := [] |}
        rest)
  /\ (forall text st rest,
      atLoopHead text st (nl :: rest) -> inQuotes st = true ->
      atLoopHead text
        {| rows := rows st; current := current st ++ [nl];
           inQuotes := true; currentRow := currentRow st |}
        rest)
  /\ (forall a b,
      inQuotes (loop init a) = false ->
      CSVDataTable.parseCSV (a ++ nl :: b)
      = CSVDataTable.parseCSV a ++ CSVDataTable.parseCSV b
      /\ CSVDataTable.parseCSV (a ++ cr :: nl :: b)
         = CSVDataTable.parseCSV a ++ CSVDataTable.parseCSV b)
  /\ (forall a b,
      inQuotes (loop init a) = true ->
      CSVDataTable.parseCSV (a ++ nl :: b)
      = finish
          (loop {| rows := rows (loop init a);
                   current := current (loop init a) ++ [nl];
                   inQuotes := true;
                   currentRow := currentRow (loop init a) |} b))
  /\ (forall text row cell,
      ~ In dquote text -> In row (CSVDataTable.parseCSV text) -> In cell row ->
      ~ In cr cell /\ ~ In nl cell)
  /\ (forall st csvText,
      insideQuote st = false ->
      lineLoop st (nl :: csvText)
      = lineLoop
          {| lines := pushLine (lines st) (currentLine st);
             currentLine := [];
             insideQuote := false |} csvText
      /\ lineLoop st (cr :: nl :: csvText) = lineLoop st (nl :: csvText))
  /\ (forall st csvText,
      insideQuote st = true ->
      lineLoop st (nl :: csvText)
      = lineLoop
          {| lines := lines st;
             currentLine := currentLine st ++ [nl];
             insideQuote := true |} csvText)
  /\ (forall a b,
      insideQuote (lineLoop lineInit a) = false ->
      splitLines (a ++ nl :: b) = splitLines a ++ splitLines b
      /\ splitLines (a ++ cr :: nl :: b) = splitLines a ++ splitLines b)
  /\ (forall a b,
      insideQuote (lineLoop lineInit a) = true ->
      splitLines (a ++ nl :: b)
      = pushLine
          (lines
             (lineLoop {| lines := lines (lineLoop lineInit a);
                          currentLine := currentLine (lineLoop lineInit a) ++ [nl];
                          insideQuote := true |} b))
          (currentLine
             (lineLoop {| lines := lines (lineLoop lineInit a);
                          currentLine := currentLine (lineLoop lineInit a) ++ [nl];
                          insideQuote := true |} b)))
  /\ (forall text,
      noQuote text = true ->
      splitLines text
      = map trim (List.filter (fun l => truthy (trim l)) (splitOn nl text)))
  /\ (forall text row cell,
      noQuote text = true ->
      forallb crLast (splitOn nl text) = true ->
      In row (parsedLines text) -> In cell row ->
      ~ In cr cell /\ ~ In nl cell)
  /\ CSVDataTable.parseCSV (js "a,b" ++ [cr; nl] ++ js "c,d" ++ [cr; nl])
     = [[js "a"; js "b"]; [js "c"; js "d"]]
  /\ CSVDataTable.parseCSV
       ([dquote] ++ js "a" ++ [nl] ++ js "b" ++ [dquote] ++ js ",c" ++ [nl]
        ++ js "d")
     = [[js "a" ++ [nl] ++ js "b"; js "c"]; [js "d"]]
  /\ splitLines (js "a,b" ++ [cr; nl] ++ js "c,d" ++ [cr; nl])
     = [js "a,b"; js "c,d"]
  /\ parsedLines (js "a,b" ++ [cr; nl] ++ js "c,d" ++ [cr; nl])
     = [[js "a"; js "b"]; [js "c"; js "d"]]
  /\ splitLines
       ([dquote] ++ js "a" ++ [nl] ++ js "b" ++ [dquote] ++ js ",c" ++ [nl]
        ++ js "d")
     = [[dquote] ++ js "a" ++ [nl] ++ js "b" ++ [dquote] ++ js ",c"; js "d"].
Proof.
  assert (Hend : forall st rest,
             inQuotes st = false ->
             iteration st nl rest
             = ({| rows := pushRow (rows st) (currentRow st ++ [trim (current st)]);
                   current := []; inQuotes := false; currentRow := [] |}, rest)
             /\ iteration st cr (nl :: rest)
                = ({| rows := pushRow (rows st)
                                (currentRow st ++ [trim (current st)]);
                      current := []; inQuotes := false; currentRow := [] |},
                   rest)).
  { intros st rest Hq. unfold iteration, body, endRow. simpl.
    rewrite Hq. simpl. split; reflexivity. }
  assert (Hin : forall st rest,
             inQuotes st = true ->
             iteration st nl rest
             = ({| rows := rows st; current := current st ++ [nl];
                   inQuotes := true; currentRow := currentRow st |}, rest)).
  { intros st rest Hq. unfold iteration, body, appendChar. simpl.
    rewrite Hq. reflexivity. }
  split; [exact Hend|]. split; [exact Hin|].
  split.
  { intros text st rest H Hq. apply atLoopHead_next in H.
    rewrite (proj1 (Hend st rest Hq)) in H. exact H. }
  split.
  { intros text st rest H Hq. apply atLoopHead_next in H.
    rewrite (proj2 (Hend st rest Hq)) in H. exact H. }
  split.
  { intros text st rest H Hq. apply atLoopHead_next in H.
    rewrite (Hin st rest Hq) in H. exact H. }
  split.
  { intros a b Hq. split.
    - unfold CSVDataTable.parseCSV at 1. rewrite (loop_app_nl b a init Hq).
      apply finish_after_rows, Hq.
    - unfold CSVDataTable.parseCSV at 1.
      rewrite (loop_app_cr (nl :: b) a init Hq). simpl.
      apply finish_after_rows, Hq. }
  split.
  { intros a b Hq. unfold CSVDataTable.parseCSV. rewrite (loop_app_nl_inside b a init Hq).
    unfold appendChar. rewrite Hq. reflexivity. }
  split.
  { intros text row cell Hq Hrow Hcell.
    pose proof (parseCSV_noTerminator text Hq) as H.
    rewrite List.Forall_forall in H. specialize (H row Hrow).
    rewrite List.Forall_forall in H. apply (H cell Hcell). }
  split.
  { intros st csvText Hq. unfold lineLoop. simpl.
    unfold lineBody. simpl. rewrite Hq. simpl.
    rewrite pushLine_snoc_cr. split; reflexivity. }
  split.
  { intros st csvText Hq. unfold lineLoop. simpl.
    unfold lineBody. simpl. rewrite Hq. reflexivity. }
  split.
  { intros a b Hq.
    split; [apply splitLines_joined, Hq|].
    change (a ++ cr :: nl :: b) with (a ++ [cr] ++ nl :: b).
    rewrite app_assoc, splitLines_joined.
    - rewrite splitLines_snoc_cr. reflexivity.
    - rewrite lineLoop_app. exact Hq. }
  split.
  { intros a b Hq. unfold splitLines at 1. rewrite lineLoop_app.
    change (lineLoop (lineLoop lineInit a) (nl :: b))
      with (lineLoop (lineBody (lineLoop lineInit a) nl) b).
    unfold lineBody at 1 2. simpl. rewrite Hq. reflexivity. }
  split; [exact splitLines_noQuote|].
  split; [exact parsedLines_noTerminator|].
  repeat split; vm_compute; reflexivity.
Qed.

Lemma line_terminator_ends_row_witness :
  CSVDataTable.parseCSV
    ((js "a," ++ [dquote] ++ js "b" ++ [nl] ++ js "c" ++ [dquote])
     ++ cr :: nl :: js "d,e")
  = [[js "a"; js "b" ++ [nl] ++ js "c"]; [js "d"; js "e"]].
Proof.
  rewrite (proj2 (proj1 (proj2 (proj2 (proj2 (proj2 (proj2
             line_terminator_ends_row)))))
             (js "a," ++ [dquote] ++ js "b" ++ [nl] ++ js "c" ++ [dquote])
             (js "d,e") eq_refl)).
  reflexivity.
Defined.

End LineTerminators.

(** ** The component around the table parser *)

Section Component.

Import CSVDataTableComponent.

Lemma forLoop_skips failed : forall rest,
  Forall (fun a => exists message, runAttempt a = inl message) failed ->
  rest <> [] -> forLoop (failed ++ rest) = forLoop rest.
Proof.
  induction failed as [|a failed IH]; intros rest Hf Hne; [reflexivity|].
  inversion Hf as [|? ? [message Ha] Hfailed]; subst.
  simpl. rewrite Ha.
  destruct (failed ++ rest) as [|b l] eqn:E.
  - destruct failed; [simpl in E; congruence | discriminate].
  - rewrite <- E. apply IH; assumption.
Qed.

(** X12.  The first attempt that passes the checks wins: when the attempts
    before it fail, its table is loaded, the error is cleared, no timer is
    started, and what the later attempts would yield does not matter. *)
Theorem first_good_attempt_loads :
  forall st failed a rest parsedData,
    Forall (fun x => exists message, runAttempt x = inl message) failed ->
    runAttempt a = inr parsedData ->
    fetchCSVData st (failed ++ a :: rest)
    = ({| data := parsedData; loading := false; error := None;
          retryCount := retryCount st; showFallback := showFallback st |}, []).
Proof.
  intros st failed a rest parsedData Hf Ha. unfold fetchCSVData.
  rewrite forLoop_skips by (exact Hf || discriminate).
  simpl. rewrite Ha. reflexivity.
Qed.

Lemma first_good_attempt_loads_witness :
  fetchCSVData
    {| data := []; loading := true; error := None; retryCount := 0;
       showFallback := false |}
    ([FetchThrows (ErrorObject (js "Failed to fetch"));
      Response false 403 (js "Forbidden") (BodyString [])]
     ++ Response true 200 (js "OK") (BodyString (js "a,b" ++ [nl] ++ js "c,d"))
        :: [FetchThrows NotAnError])
  = ({| data := [[js "a"; js "b"]; [js "c"; js "d"]]; loading := false;
        error := None; retryCount := 0; showFallback := false |}, []).
Proof.
  apply (first_good_attempt_loads
           {| data := []; loading := true; error := None; retryCount := 0;
              showFallback := false |}
           [FetchThrows (ErrorObject (js "Failed to fetch"));
            Response false 403 (js "Forbidden") (BodyString [])]
           (Response true 200 (js "OK")
              (BodyString (js "a,b" ++ [nl] ++ js "c,d")))
           [FetchThrows NotAnError]
           [[js "a"; js "b"]; [js "c"; js "d"]]).
  - repeat constructor; eexists; reflexivity.
  - vm_compute. reflexivity.
Defined.

Lemma runAttempt_loaded a parsedData :
  runAttempt a = inr parsedData ->
  exists status statusText text,
    a = Response true status statusText (BodyString text)
    /\ parsedData = CSVDataTable.parseCSV text
    /\ parsedData <> []
    /\ trim text <> []
    /\ includes (js "<html") text = false
    /\ includes (js "<!DOCTYPE") text = false.
Proof.
  destruct a as [e|ok status statusText body]; simpl; [discriminate|].
  destruct ok; simpl; [|discriminate].
  destruct body as [e|text|]; try discriminate.
  destruct (negb (truthy text) || (length (trim text) =? 0)) eqn:Eempty;
    [discriminate|].
  destruct (includes (js "<html") text || includes (js "<!DOCTYPE") text)
    eqn:Ehtml; [discriminate|].
  destruct (length (CSVDataTable.parseCSV text) =? 0) eqn:Elen; [discriminate|].
  intros H. injection H as <-.
  apply orb_false_elim in Eempty as [_ Etrim].
  apply orb_false_elim in Ehtml as [Eh Ed].
  exists status, statusText, text.
  split; [reflexivity|]. split; [reflexivity|].
  split; [intros E; rewrite E in Elen; discriminate|].
  split; [intros E; rewrite E in Etrim; discriminate|].
  split; assumption.
Qed.

Lemma forLoop_loaded attempts parsedData :
  forLoop attempts = Loaded parsedData ->
  exists a, In a attempts /\ runAttempt a = inr parsedData.
Proof.
  induction attempts as [|a rest IH]; simpl; [discriminate|].
  destruct (runAttempt a) as [message|p] eqn:Ea.
  - destruct rest as [|b rest']; [discriminate|].
    intros H. destruct (IH H) as [x [Hx Hr]].
    exists x. split; [right; exact Hx | exact Hr].
  - intros H. injection H as <-. exists a. split; [left; reflexivity | exact Ea].
Qed.

(** X13.  What is loaded has passed every check: when [fetchCSVData] ends
    without an error, the table it stored is the parse of the text of an
    attempt that answered with an [ok] response, it has a row, and that
    text is not blank and holds neither of the two marks of an HTML
    page. *)
Theorem loaded_data_passed_the_checks :
  forall st attempts,
    attempts <> [] ->
    error (fst (fetchCSVData st attempts)) = None ->
    exists status statusText text,
      In (Response true status statusText (BodyString text)) attempts
      /\ data (fst (fetchCSVData st attempts)) = CSVDataTable.parseCSV text
      /\ CSVDataTable.parseCSV text <> []
      /\ trim text <> []
      /\ includes (js "<html") text = false
      /\ includes (js "<!DOCTYPE") text = false.
Proof.
  intros st attempts Hne Herr. unfold fetchCSVData in *.
  destruct (forLoop attempts) as [parsedData|message|] eqn:E.
  - destruct (forLoop_loaded attempts parsedData E) as [a [Hin Ha]].
    destruct (runAttempt_loaded a parsedData Ha)
      as (status & statusText & text & -> & -> & Hrows & Htrim & Hh & Hd).
    exists status, statusText, text. simpl. auto 10.
  - destruct (includes (js "404") message); discriminate.
  - destruct attempts as [|a rest]; [congruence|].
    exfalso. clear Hne Herr. revert a E.
    induction rest as [|b rest IH]; intros a; simpl.
    + destruct (runAttempt a); discriminate.
    + destruct (runAttempt a); [apply IH | discriminate].
Qed.

Lemma loaded_data_passed_the_checks_witness :
  exists status statusText text,
    In (Response true status statusText (BodyString text))
      [Response true 200 (js "OK") (BodyString (js "<html>"));
       Response true 200 (js "OK") (BodyString (js "a" ++ [nl] ++ js "b"))]
    /\ data (fst (fetchCSVData
                    {| data := []; loading := true; error := None;
                       retryCount := 0; showFallback := false |}
                    [Response true 200 (js "OK") (BodyString (js "<html>"));
                     Response true 200 (js "OK")
                       (BodyString (js "a" ++ [nl] ++ js "b"))]))
       = CSVDataTable.parseCSV text
    /\ CSVDataTable.parseCSV text <> []
    /\ trim text <> []
    /\ includes (js "<html") text = false
    /\ includes (js "<!DOCTYPE") text = false.
Proof.
  apply loaded_data_passed_the_checks; [discriminate | reflexivity].
Defined.

Lemma startsWith_app prefix s : startsWith prefix (prefix ++ s) = true.
Proof.
  induction prefix as [|p prefix IH]; simpl; [reflexivity|].
  rewrite N.eqb_refl. exact IH.
Qed.

Lemma includes_after searchString a : forall s,
  includes searchString s = true -> includes searchString (a ++ s) = true.
Proof.
  induction a as [|c a IH]; intros s H; [exact H|].
  simpl. rewrite (IH s H). apply orb_true_r.
Qed.

Lemma includes_startsWith searchString s :
  startsWith searchString s = true -> includes searchString s = true.
Proof. intros H. destruct s; simpl in *; rewrite H; reflexivity. Qed.

Lemma httpMessage_404 statusText :
  includes (js "404") (httpMessage 404 statusText) = true.
Proof.
  unfold httpMessage. apply includes_after, includes_startsWith.
  apply (startsWith_app (js "404")).
Qed.

(** X14.  When every attempt fails, the error of the last attempt alone
    decides what happens; the data is left as it was.  If its message
    holds [404], the sample rows are shown at once and no timer is
    started; otherwise they are shown by a timer of two seconds.  A last
    attempt answered with status 404 is of the first kind, and a 404 met
    by an earlier attempt changes nothing. *)
Theorem last_error_decides :
  forall st failed last message,
    Forall (fun x => exists m, runAttempt x = inl m) failed ->
    runAttempt last = inl message ->
    fetchCSVData st (failed ++ [last])
    = (if includes (js "404") message
       then ({| data := data st; loading := false; error := Some notAccessible;
                retryCount := retryCount st; showFallback := true |}, [])
       else ({| data := data st; loading := false; error := Some unableToLoad;
                retryCount := retryCount st; showFallback := showFallback st |},
             [ShowFallbackAfter 2000]))
    /\ (forall statusText body,
           last = Response false 404 statusText body ->
           includes (js "404") message = true).
Proof.
  intros st failed last message Hf Hlast. split.
  - unfold fetchCSVData. rewrite forLoop_skips by (exact Hf || discriminate).
    simpl. rewrite Hlast. reflexivity.
  - intros statusText body ->. simpl in Hlast. injection Hlast as <-.
    apply httpMessage_404.
Qed.

Lemma last_error_decides_witness :
  fetchCSVData
    {| data := []; loading := true; error := None; retryCount := 0;
       showFallback := false |}
    ([Response false 404 (js "Not Found") BodyFalsy;
      Response false 404 (js "Not Found") BodyFalsy;
      Response true 200 (js "OK") (BodyString (js "  "))]
     ++ [FetchThrows (ErrorObject (js "Failed to fetch"))])
  = (if includes (js "404") (js "Failed to fetch")
     then ({| data := []; loading := false; error := Some notAccessible;
              retryCount := 0; showFallback := true |}, [])
     else ({| data := []; loading := false; error := Some unableToLoad;
              retryCount := 0; showFallback := false |},
           [ShowFallbackAfter 2000])).
Proof.
  apply (last_error_decides
           {| data := []; loading := true; error := None; retryCount := 0;
              showFallback := false |}
           [Response false 404 (js "Not Found") BodyFalsy;
            Response false 404 (js "Not Found") BodyFalsy;
            Response true 200 (js "OK") (BodyString (js "  "))]
           (FetchThrows (ErrorObject (js "Failed to fetch")))
           (js "Failed to fetch")).
  - repeat constructor; eexists; reflexivity.
  - reflexivity.
Defined.

Lemma cells_length headers row : length (cells headers row) = length headers.
Proof. unfold cells. apply length_imap. Qed.

(** X15.  A table that was loaded is what is rendered, whatever the state
    was before: its first row as headers and each later row cut or filled
    with empty strings to the width of the headers, never the loading or
    the error panel, the empty notice or the sample rows. *)
Theorem loaded_table_is_rendered :
  forall fallbackData st failed a rest parsedData,
    Forall (fun x => exists message, runAttempt x = inl message) failed ->
    runAttempt a = inr parsedData ->
    exists headers rows,
      parsedData = headers :: rows
      /\ render fallbackData (fst (fetchCSVData st (failed ++ a :: rest)))
         = TableView (showFallback st) headers (map (cells headers) rows)
      /\ Forall (fun cellsOfRow => length cellsOfRow = length headers)
           (map (cells headers) rows)
      /\ (forall row i header,
             In row rows -> headers !! i = Some header ->
             cells headers row !! i
             = Some (LiveResponsesTable.cellOrEmpty row i)).
Proof.
  intros fallbackData st failed a rest parsedData Hf Ha.
  rewrite (first_good_attempt_loads st failed a rest parsedData Hf Ha).
  destruct (runAttempt_loaded a parsedData Ha)
    as (status & statusText & text & _ & _ & Hrows & _).
  destruct parsedData as [|headers rows]; [congruence|].
  exists headers, rows. split; [reflexivity|].
  split; [unfold render; simpl; rewrite andb_false_r; reflexivity|].
  split.
  - apply List.Forall_forall. intros r Hr.
    apply in_map_iff in Hr as [row [<- _]]. apply cells_length.
  - intros row i header _ Hi. unfold cells.
    rewrite list_lookup_imap, Hi. reflexivity.
Qed.

Lemma loaded_table_is_rendered_witness :
  exists headers rows,
    [[js "a"; js "b"]; [js "c"]] = headers :: rows
    /\ render [[js "sample"]]
         (fst (fetchCSVData
                 {| data := []; loading := true; error := Some unableToLoad;
                    retryCount := 1; showFallback := true |}
                 ([FetchThrows NotAnError]
                  ++ Response true 200 (js "OK")
                       (BodyString (js "a,b" ++ [nl] ++ js "c")) :: [])))
       = TableView true headers (map (cells headers) rows)
    /\ Forall (fun cellsOfRow => length cellsOfRow = length headers)
         (map (cells headers) rows)
    /\ (forall row i header,
           In row rows -> headers !! i = Some header ->
           cells headers row !! i
           = Some (LiveResponsesTable.cellOrEmpty row i)).
Proof.
  apply (loaded_table_is_rendered [[js "sample"]]
           {| data := []; loading := true; error := Some unableToLoad;
              retryCount := 1; showFallback := true |}
           [FetchThrows NotAnError]
           (Response true 200 (js "OK")
              (BodyString (js "a,b" ++ [nl] ++ js "c")))
           [] [[js "a"; js "b"]; [js "c"]]).
  - repeat constructor. eexists. reflexivity.
  - vm_compute. reflexivity.
Defined.

End Component.
